(** * OathstoneClient: multi-network connection and contract registry

    A shallow embedding of [src/index.js] (class [OathstoneClient]) and of
    the type declarations that accompany it, followed by the properties
    of the registry, the balance readers and the transfer executors.

    Conventions of the embedding.
    - A JavaScript object used as a dictionary and walked with
      [Object.entries] is the list of its entries, in iteration order.
    - The two registries ([this.providers], [this.contracts]) are only
      read by key or tested for emptiness: they are [gmap]s.
    - An optional field is an [option]; [!x] on an optional string is
      "absent or empty".
    - A name a caller asks about is any string: a lookup in a registry
      answers the stored value, or the member every plain object
      inherits under that name, or nothing. The names of the configured
      networks and tokens are taken to be none of the inherited ones.
    - [throw] is the [Err] result; the instance state reached so far is
      kept next to it, as it is in the JavaScript object.
    - The EVM client library (ethers) is a collaborator: the calls on
      its asynchronous interface are answered by an oracle and recorded
      in a trace; what its constructors and its proxies refuse
      synchronously is written out. *)

From Stdlib Require Import ZArith String Ascii List Lia.
From stdpp Require Import base option list gmap strings.

Local Open Scope string_scope.
Local Open Scope list_scope.
Local Open Scope Z_scope.

(** ** JavaScript truthiness on optional strings *)

Module Js.

(** [!!s] for [s : string | undefined]. *)
Definition truthy (o : option string) : bool :=
  match o with
  | Some s => negb (String.eqb s "")
  | None => false
  end.

(** [a || b] *)
Definition or (a b : option string) : option string :=
  if truthy a then a else b.


End Js.

(** ** Property lookup on a plain object *)

(** The names every plain object inherits from [Object.prototype]; the
    member found under each of them is truthy. *)
Definition object_prototype_names : list string :=
  ["constructor"; "hasOwnProperty"; "isPrototypeOf"; "propertyIsEnumerable";
   "toLocaleString"; "toString"; "valueOf"; "__proto__";
   "__defineGetter__"; "__defineSetter__"; "__lookupGetter__"; "__lookupSetter__"].

Definition inherited (name : string) : bool :=
  existsb (String.eqb name) object_prototype_names.
Arguments inherited name : simpl never.

(** What [obj[key]] answers on a plain object used as a registry: the
    stored value, an inherited member, or [undefined]. *)
Inductive Member (A : Type) :=
| Own (a : A)
| Inherited (name : string)
| Missing.
Arguments Own {A} a.
Arguments Inherited {A} name.
Arguments Missing {A}.

Definition member {A} (own : gmap string A) (key : string) : Member A :=
  match own !! key with
  | Some a => Own a
  | None => if inherited key then Inherited key else Missing
  end.

(** ** Configuration shapes (index.d.ts) *)

Record RpcUrls := {
  testnet : option string;
  mainnet : option string
}.

(** An ABI is represented by the names of the functions it describes. *)
Definition Abi := list string.

(** The [decimals] field of a token as [typeof] sees it. *)
Inductive DecimalsField :=
| DecimalsNumber (d : nat)
| DecimalsOther (raw : string).

Record TokenConfig := {
  contractAddress : option string;
  address : option string;
  abi : option Abi;
  decimals : option DecimalsField;
  symbol : option string;
  name : option string
}.

Record NetworkConfig := {
  environment : Z;
  rpcUrl : option RpcUrls;
  tokens : option (list (string * TokenConfig))
}.

(** What the caller hands to the constructor: [networks] may be missing,
    and an entry of [networks] may be [null]. *)
Record RawConfig := {
  raw_networks : option (list (string * option NetworkConfig))
}.

(** The normalized configuration held by the instance. *)
Record OathstoneConfig := {
  networks : list (string * NetworkConfig)
}.

(** ** Errors: one constructor per [throw] site *)

Inductive Error :=
| InvalidConfig                                   (* "Invalid config: expected { networks: {...} }" *)
| NetworkMissingRpcUrl (n : string)               (* "Network ${n} missing rpcUrl" *)
| MissingRpcUrl                                   (* "Missing rpcUrl for network (check testnet/mainnet keys)" *)
| ProviderNotInitialized (network : string)       (* "Provider not initialized for ${network}" *)
| ContractNotFound (tokenName network : string)   (* "Contract not found for ${tokenName} on ${network}" *)
| InvalidAmount (amount : string)                 (* raised by the unit parser *)
| InvalidPrivateKey                               (* raised by the wallet constructor *)
| RpcFailure (reason : string)                    (* a rejected remote call *)
| TypeError (callee : string)                     (* "... ${callee} is not a function" *)
| UnsupportedOperation (operation : string)       (* "contract runner does not support name resolution" *)
| InvalidDecimals (decimals : nat)                (* more than 80 decimals, refused by the unit functions *)
| AmountOverflow (amount : string).               (* an amount outside 512 signed bits *)

Inductive result (A : Type) :=
| Ok (a : A)
| Err (e : Error).
Arguments Ok {A} a.
Arguments Err {A} e.

Definition is_ok {A} (r : result A) : bool :=
  match r with Ok _ => true | Err _ => false end.

(** ** ConfigNormalizer *)

(** Body of the inner loop of [validateConfig]:
    [normTokens[t] = { ...tk, contractAddress: tk.contractAddress || tk.address }]. *)
Definition normalizeToken (tk : TokenConfig) : TokenConfig :=
  {| contractAddress := Js.or (contractAddress tk) (address tk);
     address := address tk;
     abi := abi tk;
     decimals := decimals tk;
     symbol := symbol tk;
     name := name tk |}.

Definition normalizeTokens (tks : list (string * TokenConfig))
  : list (string * TokenConfig) :=
  List.map (fun '(t, tk) => (t, normalizeToken tk)) tks.

(** Body of the outer loop of [validateConfig] for the entry [n]. *)
Definition validateNetwork (n : string) (net : option NetworkConfig)
  : result NetworkConfig :=
  match net with
  | None => Err (NetworkMissingRpcUrl n)
  | Some net =>
      match rpcUrl net with
      | None => Err (NetworkMissingRpcUrl n)
      | Some urls =>
          Ok {| environment := environment net;
                rpcUrl := Some urls;
                tokens := Some (normalizeTokens (default [] (tokens net))) |}
      end
  end.

(** [validateConfig]: the entries are visited in order and the first
    failing one aborts the whole normalization. *)
Fixpoint validateNetworks (entries : list (string * option NetworkConfig))
  : result (list (string * NetworkConfig)) :=
  match entries with
  | [] => Ok []
  | (n, net) :: rest =>
      match validateNetwork n net with
      | Err e => Err e
      | Ok net' =>
          match validateNetworks rest with
          | Err e => Err e
          | Ok rest' => Ok ((n, net') :: rest')
          end
      end
  end.

Definition validateConfig (entries : list (string * option NetworkConfig))
  : result OathstoneConfig :=
  match validateNetworks entries with
  | Err e => Err e
  | Ok nets => Ok {| networks := nets |}
  end.

(** The guard of the constructor followed by [validateConfig]: this is
    the whole of normalization as a caller observes it. *)
Definition normalize (config : option RawConfig) : result OathstoneConfig :=
  match config with
  | None => Err InvalidConfig
  | Some c =>
      match raw_networks c with
      | None => Err InvalidConfig
      | Some entries => validateConfig entries
      end
  end.

(** [resolveRpcUrl]. [environment] is a number (index.d.ts), on which
    [Number(x) === 0] is [x = 0]; [!rpcUrl] holds for an absent and for
    an empty endpoint. *)
Definition resolveRpcUrl (networkConfig : NetworkConfig) : result string :=
  let isTestnet := Z.eqb (environment networkConfig) 0 in
  let selected :=
    if isTestnet
    then urls ← rpcUrl networkConfig; testnet urls
    else urls ← rpcUrl networkConfig; mainnet urls in
  if Js.truthy selected
  then match selected with Some url => Ok url | None => Err MissingRpcUrl end
  else Err MissingRpcUrl.

(** ** The collaborator: providers, contracts, wallets and remote calls *)

(** [new ethers.JsonRpcProvider(rpcUrl)] *)
Record Provider := {
  endpoint : string
}.

(** [new ethers.Contract(address, abi, runner)]; the runner is
    [this.providers[networkName]]: a provider, an inherited member or
    [undefined]. *)
Record Contract := {
  target : string;
  interface : Abi;
  runner : Member Provider
}.

(** [contract[name]] is a function exactly when the ABI describes one
    of that name; it is [undefined] otherwise. *)
Definition has_function (c : Contract) (name : string) : bool :=
  existsb (String.eqb name) (interface c).
Arguments has_function c name : simpl never.

(** [new ethers.Wallet(privateKey, provider)]; the provider is whatever
    passed the guard of the caller. *)
Record Wallet := {
  signingKey : string;
  wallet_provider : Member Provider
}.

Definition is_hex_digit (c : ascii) : bool :=
  let n := nat_of_ascii c in
  ((48 <=? n) && (n <=? 57) || (65 <=? n) && (n <=? 70)
   || (97 <=? n) && (n <=? 102))%nat.

(** The test the contract constructor applies to a string target: it
    is taken as an address when it reads [0x] followed by hexadecimal
    digits, and as a name to resolve otherwise. *)
Definition isHexString (s : string) : bool :=
  match s with
  | String "0" (String "x" rest) => forallb is_hex_digit (list_ascii_of_string rest)
  | _ => false
  end.

(** [OathstoneClient.ERC20_ABI] *)
Definition ERC20_ABI : Abi :=
  ["balanceOf"; "transfer"; "decimals"; "symbol"; "name"].

(** The calls on the asynchronous interface of the collaborator. *)
Inductive RpcCall :=
| GetBalance (p : Provider) (owner : string)
| BalanceOf (c : Contract) (owner : string)
| Decimals (c : Contract)
| SendTransaction (w : Wallet) (to : string) (value : Z)
| Transfer (w : Wallet) (c : Contract) (to : string) (value : Z)
| Wait (hash : string)
| ResolveName (resolver : Member Provider) (name : string).

Definition is_balance_read (c : RpcCall) : bool :=
  match c with
  | BalanceOf _ _ => true
  | _ => false
  end.

Definition is_decimals_read (c : RpcCall) : bool :=
  match c with
  | Decimals _ => true
  | _ => false
  end.

Definition is_resolution (c : RpcCall) : bool :=
  match c with
  | ResolveName _ _ => true
  | _ => false
  end.

Definition count_calls (p : RpcCall -> bool) (tr : list RpcCall) : nat :=
  length (List.filter p tr).

(** The answers of the network. Every answer may depend on the calls
    issued before it, so nothing is assumed about the remote state.
    [js_builtin_truthy a b] is the answer of the runtime, not of the
    network: whether [Object.prototype[a][b]] is truthy. *)
Record Ethers := {
  eth_getBalance : list RpcCall -> Provider -> string -> result Z;
  eth_balanceOf : list RpcCall -> Contract -> string -> result Z;
  eth_decimals : list RpcCall -> Contract -> result nat;
  eth_validKey : string -> bool;
  eth_sendTransaction : list RpcCall -> Wallet -> string -> Z -> result string;
  eth_transfer : list RpcCall -> Wallet -> Contract -> string -> Z -> result string;
  eth_wait : list RpcCall -> string -> result (option Z);
  js_builtin_truthy : string -> string -> bool
}.

(** ** The instance and its state monad *)

Record OathstoneClient := {
  config : OathstoneConfig;
  providers : gmap string Provider;
  contracts : gmap string (gmap string Contract)
}.

(** [new OathstoneClient(config)] *)
Definition constructor (c : option RawConfig) : result OathstoneClient :=
  match normalize c with
  | Err e => Err e
  | Ok cfg => Ok {| config := cfg; providers := ∅; contracts := ∅ |}
  end.

(** The instance together with the remote calls issued so far. *)
Record World := {
  self : OathstoneClient;
  trace : list RpcCall
}.

(** A method: it runs from a world and ends in a result and a world.
    A throwing method leaves the mutations it made before the throw. *)
Definition M (A : Type) : Type := World -> result A * World.

Definition ret {A} (a : A) : M A := fun w => (Ok a, w).

Definition throw {A} (e : Error) : M A := fun w => (Err e, w).

Definition bind {A B} (m : M A) (k : A -> M B) : M B :=
  fun w =>
    match m w with
    | (Ok a, w') => k a w'
    | (Err e, w') => (Err e, w')
    end.

Declare Scope method_scope.
Delimit Scope method_scope with method.
Notation "'let*' x ':=' c1 'in' c2" := (bind c1 (fun x => c2))
  (at level 10, x name, c1 at level 100, c2 at level 200) : method_scope.
Notation "'do' c1 'then' c2" := (bind c1 (fun _ => c2))
  (at level 10, c1 at level 100, c2 at level 200) : method_scope.
Local Open Scope method_scope.

(** A synchronous call that may throw. *)
Definition lift {A} (r : result A) : M A :=
  match r with
  | Ok a => ret a
  | Err e => throw e
  end.

Definition this : M OathstoneClient := fun w => (Ok (self w), w).

(** The world after [this.providers = ps], [this.contracts = cs], and
    after one more remote call. *)
Definition with_providers (ps : gmap string Provider) (w : World) : World :=
  {| self := {| config := config (self w);
                providers := ps;
                contracts := contracts (self w) |};
     trace := trace w |}.

Definition with_contracts (cs : gmap string (gmap string Contract)) (w : World)
  : World :=
  {| self := {| config := config (self w);
                providers := providers (self w);
                contracts := cs |};
     trace := trace w |}.

Definition with_calls (calls : list RpcCall) (w : World) : World :=
  {| self := self w; trace := trace w ++ calls |}.

Definition set_providers (ps : gmap string Provider) : M unit :=
  fun w => (Ok tt, with_providers ps w).

Definition set_contracts (cs : gmap string (gmap string Contract)) : M unit :=
  fun w => (Ok tt, with_contracts cs w).

(** [for (const x of l) body(x)] *)
Fixpoint for_each {A} (l : list A) (body : A -> M unit) : M unit :=
  match l with
  | [] => ret tt
  | x :: rest => do body x then for_each rest body
  end.

(** A call whose promise is not awaited by the caller. *)
Definition start (call : RpcCall) : M unit :=
  fun w => (Ok tt, with_calls [call] w).

(** Issue a remote call: it is recorded, and the promise it returns is
    already settled by the oracle (with the calls issued before it). *)
Definition issue {A} (call : RpcCall) (answer : list RpcCall -> result A)
  : M (result A) :=
  fun w =>
    (Ok (answer (trace w)), with_calls [call] w).

(** [await p] *)
Definition await {A} (p : result A) : M A := lift p.

(** [p.catch(() => v)] *)
Definition catch {A} (p : result A) (v : A) : result A :=
  match p with
  | Ok a => Ok a
  | Err _ => Ok v
  end.

(** ** NetworkRegistry *)

(** [this.providers[networkName] = new ethers.JsonRpcProvider(rpcUrl)] *)
Definition connectNetwork (entry : string * NetworkConfig) : M unit :=
  let '(networkName, networkConfig) := entry in
  let* rpcUrl := lift (resolveRpcUrl networkConfig) in
  let* c := this in
  set_providers (<[networkName := {| endpoint := rpcUrl |}]> (providers c)).

Definition connectNetworks : M bool :=
  let* c := this in
  do for_each (networks (config c)) connectNetwork then
  ret true.

(** [this.providers[network]] *)
Definition getProvider (network : string) : M (Member Provider) :=
  let* c := this in
  ret (member (providers c) network).

(** ** ContractRegistry *)

(** [new ethers.Contract(address, abi, runner)]. A target that is not a
    hexadecimal string is a name: the constructor asks the runner to
    resolve it, without awaiting the answer, and throws when the runner
    cannot resolve names. *)
Definition newContract (addr : string) (abi : Abi) (runner : Member Provider)
  : M Contract :=
  let c := {| target := addr; interface := abi; runner := runner |} in
  if isHexString addr then ret c
  else
    match runner with
    | Own _ => do start (ResolveName runner addr) then ret c
    | _ => throw (UnsupportedOperation "resolveName")
    end.

(** Body of the inner loop of [loadContracts] for one token. *)
Definition loadToken (networkName : string) (entry : string * TokenConfig)
  : M unit :=
  let '(tokenName, tokenConfig) := entry in
  let address := Js.or (contractAddress tokenConfig) (address tokenConfig) in
  if Js.truthy address then
    match address with
    | Some addr =>
        let abi :=
          match abi tokenConfig with
          | Some a => a
          | None => ERC20_ABI
          end in
        let* c := this in
        let* bound := newContract addr abi (member (providers c) networkName) in
        set_contracts
          (<[networkName := <[tokenName := bound]> (default ∅ (contracts c !! networkName))]>
             (contracts c))
    | None => ret tt
    end
  else ret tt.

(** Body of the outer loop of [loadContracts] for one network. The
    read in [this.contracts[networkName] || {}] is on a configured
    name, none of the inherited ones: it finds the stored bindings or
    nothing. *)
Definition loadNetwork (entry : string * NetworkConfig) : M unit :=
  let '(networkName, networkConfig) := entry in
  let* c := this in
  do set_contracts
       (<[networkName := default ∅ (contracts c !! networkName)]> (contracts c)) then
  for_each (default [] (tokens networkConfig)) (loadToken networkName).

Definition loadContracts : M bool :=
  let* c := this in
  do (if Nat.eqb (size (providers c)) 0
      then (do connectNetworks then ret tt)
      else ret tt) then
  let* c := this in
  do for_each (networks (config c)) loadNetwork then
  ret true.

(** ** Unit conversion (the collaborator's [formatUnits] / [parseUnits])

    The client delegates every conversion between raw integers and
    decimal strings to the EVM client library. The two functions are
    modelled here from what the specification requires of them; the
    digit helpers below serve only that model. *)

Module Units.

Definition digit_char (d : Z) : ascii :=
  ascii_of_nat (48 + Z.to_nat d).

Definition is_digit (c : ascii) : bool :=
  let n := Z.of_nat (nat_of_ascii c) in
  (48 <=? n) && (n <=? 57).

Definition digit_value (c : ascii) : Z :=
  Z.of_nat (nat_of_ascii c) - 48.

(** Value of a digit sequence, most significant digit first. *)
Definition digits_value (l : list ascii) : Z :=
  List.fold_left (fun acc c => 10 * acc + digit_value c) l 0.

(** The [k] low decimal digits of [n], most significant first. *)
Fixpoint low_digits (k : nat) (n : Z) : list ascii :=
  match k with
  | O => []
  | S k' => low_digits k' (n / 10) ++ [digit_char (n mod 10)]
  end.

(** The decimal numeral of [n >= 0], without leading zeros. *)
Fixpoint numeral_fuel (fuel : nat) (n : Z) : list ascii :=
  match fuel with
  | O => []
  | S fuel' =>
      if n <? 10 then [digit_char n]
      else numeral_fuel fuel' (n / 10) ++ [digit_char (n mod 10)]
  end.

Definition numeral (n : Z) : list ascii :=
  numeral_fuel (S (Z.to_nat (Z.log2 n))) n.

Fixpoint drop_zeros (l : list ascii) : list ascii :=
  match l with
  | [] => []
  | c :: r => if Ascii.eqb c "0" then drop_zeros r else l
  end.

(** Drop the trailing zeros of a fraction, keeping at least one digit. *)
Definition trim_fraction (l : list ascii) : list ascii :=
  match rev (drop_zeros (rev l)) with
  | [] => ["0"%char]
  | t => t
  end.

(** Modelled from the spec: [ethers.formatUnits], which lives in the EVM
    client library and not in this repository. "Formatting must use
    fixed-point decimal conversion, not floating-point arithmetic":
    the integer part, a point, and the [decimals] fractional digits with
    their trailing zeros removed down to one digit ("1.5", "0.0"). *)
Definition formatUnits (value : Z) (decimals : nat) : string :=
  let sign := if value <? 0 then ["-"%char] else [] in
  let a := Z.abs value in
  let scale := 10 ^ Z.of_nat decimals in
  string_of_list_ascii
    (match decimals with
     | O => sign ++ numeral a
     | S _ =>
         sign ++ numeral (a / scale) ++ "."%char
              :: trim_fraction (low_digits decimals (a mod scale))
     end).

(** [ethers.formatEther] *)
Definition formatEther (value : Z) : string := formatUnits value 18.

(** Split a numeral at its first point. *)
Fixpoint split_point (l : list ascii) : list ascii * option (list ascii) :=
  match l with
  | [] => ([], None)
  | c :: r =>
      if Ascii.eqb c "." then ([], Some r)
      else let '(w, f) := split_point r in (c :: w, f)
  end.

(** Modelled from the spec: the scaling step of [ethers.parseUnits]
    (EVM client library, not in this repository) on an unsigned
    numeral. [whole], optionally a point and [frac], all digits and not
    both empty, denote [whole.frac * 10^decimals]; the result exists
    when that product is an integer. *)
Definition scale_digits (negative : bool) (body : list ascii) (decimals : nat)
  : option Z :=
  let '(whole, frac) := split_point body in
  let frac := default [] frac in
  if forallb is_digit whole && forallb is_digit frac
     && negb (Nat.eqb (length whole + length frac) 0)
  then
    let numerator := digits_value (whole ++ frac) * 10 ^ Z.of_nat decimals in
    let denominator := 10 ^ Z.of_nat (length frac) in
    if numerator mod denominator =? 0
    then Some ((if negative then -1 else 1) * (numerator / denominator))
    else None
  else None.

(** Modelled from the spec: [ethers.parseUnits], which lives in the EVM
    client library and not in this repository. "Arbitrary-precision
    (non-floating) decimal-to-integer scaling by [10^decimals], rejecting
    any input that would require fractional smallest units (the scaled
    amount must be an exact integer)". The amount is an optional sign,
    digits, and optionally a point and digits; [None] is the rejection. *)
Definition parseUnits (amount : string) (decimals : nat) : option Z :=
  match list_ascii_of_string amount with
  | c :: r =>
      if Ascii.eqb c "-" then scale_digits true r decimals
      else scale_digits false (c :: r) decimals
  | [] => scale_digits false [] decimals
  end.

(** [ethers.parseEther] *)
Definition parseEther (amount : string) : option Z := parseUnits amount 18.

End Units.

(** ** BalanceReader and TransferExecutor *)

(** [{ network, token?, hash, status }] *)
Record TxResult := {
  tx_network : string;
  tx_token : option string;
  tx_hash : string;
  tx_status : option Z
}.

(** [obj?.[key]] on a dictionary given by its entries. *)
Fixpoint entry {A} (key : string) (l : list (string * A)) : option A :=
  match l with
  | [] => None
  | (k, v) :: rest => if String.eqb k key then Some v else entry key rest
  end.

(** [this.config.networks?.[network]?.tokens?.[tokenName]?.decimals] *)
Definition decimalsFromConfig (cfg : OathstoneConfig) (network tokenName : string)
  : option DecimalsField :=
  net ← entry network (networks cfg);
  tks ← tokens net;
  tk ← entry tokenName tks;
  decimals tk.

(** [new ethers.Wallet(fromPrivateKey, provider)] *)
Definition newWallet (validKey : string -> bool) (key : string)
  (p : Member Provider) : result Wallet :=
  if validKey key
  then Ok {| signingKey := key; wallet_provider := p |}
  else Err InvalidPrivateKey.

(** The fixed-point format of the unit functions holds at most 80
    decimals and 512 signed bits. *)
Definition fits_fixed (v : Z) : bool :=
  (- 2 ^ 511 <=? v) && (v <? 2 ^ 511).

(** [ethers.parseUnits(amount.toString(), decimals)]; the amount is
    taken after [toString]. *)
Definition parseAmount (amount : string) (decimals : nat) : result Z :=
  if (80 <? decimals)%nat then Err (InvalidDecimals decimals)
  else
    match Units.parseUnits amount decimals with
    | Some v => if fits_fixed v then Ok v else Err (AmountOverflow amount)
    | None => Err (InvalidAmount amount)
    end.

(** [ethers.formatUnits(raw, decimals)] on a balance read from the
    chain, which is an unsigned 256-bit integer and fits the format. *)
Definition formatBalance (raw : Z) (decimals : nat) : result string :=
  if (80 <? decimals)%nat then Err (InvalidDecimals decimals)
  else Ok (Units.formatUnits raw decimals).

Section Methods.

Variable eth : Ethers.

(** [this.contracts[network]?.[tokenName]]. When [network] names an
    inherited member, the lookup goes on inside that built-in object;
    [Missing] stands for [undefined] and for any other falsy answer. *)
Definition contractAt (cs : gmap string (gmap string Contract))
  (network tokenName : string) : Member Contract :=
  match member cs network with
  | Own bindings => member bindings tokenName
  | Inherited builtin =>
      if js_builtin_truthy eth builtin tokenName
      then Inherited (String.append builtin (String.append "." tokenName))
      else Missing
  | Missing => Missing
  end.

Definition getContract (network tokenName : string) : M (Member Contract) :=
  let* c := this in
  ret (contractAt (contracts c) network tokenName).

Definition getNativeBalance (network addr : string) : M string :=
  let* provider := getProvider network in
  match provider with
  | Missing => throw (ProviderNotInitialized network)
  | Inherited _ => throw (TypeError "getBalance")
  | Own p =>
      let* pending := issue (GetBalance p addr)
                            (fun h => eth_getBalance eth h p addr) in
      let* balance := await pending in
      ret (Units.formatEther balance)
  end.

(** The two reads are issued one after the other and awaited together;
    the decimals promise carries its [catch], so only the balance
    promise can reject the [Promise.all]. A read the ABI does not
    describe is a call of [undefined]: it throws on the spot. *)
Definition getTokenBalance (network tokenName addr : string) : M string :=
  let* contract := getContract network tokenName in
  match contract with
  | Missing => throw (ContractNotFound tokenName network)
  | Inherited _ => throw (TypeError "balanceOf")
  | Own c =>
      if has_function c "balanceOf" then
        let* balanceRead := issue (BalanceOf c addr)
                                  (fun h => eth_balanceOf eth h c addr) in
        if has_function c "decimals" then
          let* decimalsRead := issue (Decimals c)
                                     (fun h => eth_decimals eth h c) in
          let* raw := await balanceRead in
          let* decimals := await (catch decimalsRead 18%nat) in
          lift (formatBalance raw decimals)
        else throw (TypeError "decimals")
      else throw (TypeError "balanceOf")
  end.

Definition transferNative (network fromPrivateKey toAddress amount : string)
  : M TxResult :=
  let* provider := getProvider network in
  match provider with
  | Missing => throw (ProviderNotInitialized network)
  | found =>
      let* signer := lift (newWallet (eth_validKey eth) fromPrivateKey found) in
      let* value := lift (parseAmount amount 18) in
      let* sent := issue (SendTransaction signer toAddress value)
                         (fun h => eth_sendTransaction eth h signer toAddress value) in
      let* hash := await sent in
      let* mined := issue (Wait hash) (fun h => eth_wait eth h hash) in
      let* status := await mined in
      ret {| tx_network := network; tx_token := None;
             tx_hash := hash; tx_status := status |}
  end.

(** The [decimals] of [transferToken]:
    [typeof decimalsFromConfig === "number" ? decimalsFromConfig
     : await contract.decimals().catch(() => 18)]. *)
Definition transferDecimals (network tokenName : string)
  (contract : Member Contract) : M nat :=
  let* client := this in
  match decimalsFromConfig (config client) network tokenName with
  | Some (DecimalsNumber d) => ret d
  | _ =>
      match contract with
      | Own c =>
          if has_function c "decimals" then
            let* decimalsRead := issue (Decimals c) (fun h => eth_decimals eth h c) in
            await (catch decimalsRead 18%nat)
          else throw (TypeError "decimals")
      | _ => throw (TypeError "decimals")
      end
  end.

(** [contract.connect(signer)]: a contract on the same target, so a
    target that is a name is handed to the signer for resolution. *)
Definition connect (signer : Wallet) (c : Contract) : M unit :=
  if isHexString (target c) then ret tt
  else start (ResolveName (wallet_provider signer) (target c)).

Definition transferToken
  (network tokenName fromPrivateKey toAddress amount : string) : M TxResult :=
  let* provider := getProvider network in
  match provider with
  | Missing => throw (ProviderNotInitialized network)
  | foundProvider =>
      let* contract := getContract network tokenName in
      match contract with
      | Missing => throw (ContractNotFound tokenName network)
      | foundContract =>
          let* decimals := transferDecimals network tokenName foundContract in
          let* signer :=
            lift (newWallet (eth_validKey eth) fromPrivateKey foundProvider) in
          match foundContract with
          | Own c =>
              do connect signer c then
              let* value := lift (parseAmount amount decimals) in
              if has_function c "transfer" then
                let* sent := issue (Transfer signer c toAddress value)
                                   (fun h => eth_transfer eth h signer c toAddress value) in
                let* hash := await sent in
                let* mined := issue (Wait hash) (fun h => eth_wait eth h hash) in
                let* status := await mined in
                ret {| tx_network := network; tx_token := Some tokenName;
                       tx_hash := hash; tx_status := status |}
              else throw (TypeError "transfer")
          | _ => throw (TypeError "connect")
          end
      end
  end.

End Methods.

(** A freshly constructed instance, before any remote call. *)
Definition fresh (c : OathstoneClient) : World :=
  {| self := c; trace := [] |}.

(** ** Descriptions of the loops and of the specification's wording *)


(** The provider map after the loop of [connectNetworks] has gone
    through [entries] without throwing. *)
Definition connected (entries : list (string * NetworkConfig))
  (ps : gmap string Provider) : gmap string Provider :=
  fold_left
    (fun ps entry =>
       match resolveRpcUrl entry.2 with
       | Ok url => <[entry.1 := {| endpoint := url |}]> ps
       | Err _ => ps
       end)
    entries ps.

Definition resolves (entry : string * NetworkConfig) : Prop :=
  is_ok (resolveRpcUrl entry.2) = true.

(** The decimals [transferToken] scales with, and the reads it issues to
    learn them. *)
Definition decimals_used (eth : Ethers) (w : World)
  (network tokenName : string) (c : Contract) : nat :=
  match decimalsFromConfig (config (self w)) network tokenName with
  | Some (DecimalsNumber d) => d
  | _ => match eth_decimals eth (trace w) c with
         | Ok d => d
         | Err _ => 18%nat
         end
  end.

Definition decimals_reads (w : World) (network tokenName : string) (c : Contract)
  : list RpcCall :=
  match decimalsFromConfig (config (self w)) network tokenName with
  | Some (DecimalsNumber _) => []
  | _ => [Decimals c]
  end.

(** [this.contracts[n]?.[t]] *)
Definition binding (cs : gmap string (gmap string Contract)) (n t : string)
  : option Contract :=
  cs !! n ≫= fun m => m !! t.

(** The token has a resolvable address:
    [tokenConfig.contractAddress || tokenConfig.address] is truthy. *)
Definition resolvable (tk : TokenConfig) : bool :=
  Js.truthy (Js.or (contractAddress tk) (address tk)).

(** The registry after one turn of the inner loop of [loadContracts]. *)
Definition load_token_step (ps : gmap string Provider) (n : string)
  (cs : gmap string (gmap string Contract)) (entry : string * TokenConfig)
  : gmap string (gmap string Contract) :=
  match Js.or (contractAddress entry.2) (address entry.2) with
  | Some addr =>
      if resolvable entry.2 then
        <[n := <[entry.1 := {| target := addr;
                               interface := default ERC20_ABI (abi entry.2);
                               runner := member ps n |}]>
                 (default ∅ (cs !! n))]> cs
      else cs
  | None => cs
  end.




(** ** Sample configurations, instances and networks *)

Definition alfajores : RpcUrls :=
  {| testnet := Some "https://alfajores-forno.celo-testnet.org";
     mainnet := Some "https://forno.celo.org" |}.

Definition usd_token : TokenConfig :=
  {| contractAddress := Some "0x45f1DcFE95db1e61240b8450C78ed467463dC8E9";
     address := None; abi := None;
     decimals := Some (DecimalsNumber 18);
     symbol := None; name := None |}.

Definition celo_network : NetworkConfig :=
  {| environment := 0;
     rpcUrl := Some alfajores;
     tokens := Some [("USD", usd_token)] |}.

Definition celo_config : RawConfig :=
  {| raw_networks := Some [("celo", Some celo_network)] |}.


(** A token that declares neither [address] nor [contractAddress]. *)
Definition addressless_token : TokenConfig :=
  {| contractAddress := None; address := None;
     abi := None; decimals := None; symbol := None; name := None |}.

Definition addressless_config : RawConfig :=
  {| raw_networks :=
       Some [("celo", Some {| environment := 0; rpcUrl := Some alfajores;
                              tokens := Some [("USD", addressless_token)] |})] |}.

(** A network whose [rpcUrl] object holds neither endpoint. *)
Definition endpointless_config : RawConfig :=
  {| raw_networks :=
       Some [("celo", Some {| environment := 0;
                              rpcUrl := Some {| testnet := None; mainnet := None |};
                              tokens := None |})] |}.

(** A network that answers every call with the same values. *)
Definition steady_chain : Ethers :=
  {| eth_getBalance := fun _ _ _ => Ok 1500000000000000000;
     eth_balanceOf := fun _ _ _ => Ok 5500000;
     eth_decimals := fun _ _ => Ok 6%nat;
     eth_validKey := fun _ => true;
     eth_sendTransaction := fun _ _ _ _ => Ok "0xhash";
     eth_transfer := fun _ _ _ _ _ => Ok "0xhash";
     eth_wait := fun _ _ => Ok (Some 1);
     js_builtin_truthy := fun _ _ => false |}.

(** The instance built from [celo_config]. *)
Definition celo_client : OathstoneClient :=
  {| config := {| networks := [("celo", celo_network)] |};
     providers := ∅;
     contracts := ∅ |}.

(** A configuration whose second network has no mainnet endpoint. *)
Definition broken_polygon : NetworkConfig :=
  {| environment := 1;
     rpcUrl := Some {| testnet := Some "https://rpc-amoy.polygon.technology";
                       mainnet := None |};
     tokens := None |}.

Definition half_broken_client : OathstoneClient :=
  {| config := {| networks := [("celo", celo_network); ("polygon", broken_polygon)] |};
     providers := ∅;
     contracts := ∅ |}.

(** The provider, the binding and the world reached from [celo_config]
    by [connectNetworks] and [loadContracts]. *)
Definition celo_provider : Provider :=
  {| endpoint := "https://alfajores-forno.celo-testnet.org" |}.

Definition celo_usd : Contract :=
  {| target := "0x45f1DcFE95db1e61240b8450C78ed467463dC8E9";
     interface := ERC20_ABI;
     runner := Own celo_provider |}.

Definition celo_loaded : World :=
  {| self := {| config := config celo_client;
                providers := {["celo" := celo_provider]};
                contracts := {["celo" := {["USD" := celo_usd]}]} |};
     trace := [] |}.

(** A configuration with one token still waiting for its address. *)
Definition partial_network : NetworkConfig :=
  {| environment := 0;
     rpcUrl := Some alfajores;
     tokens := Some [("USD", usd_token); ("EUR", addressless_token)] |}.

Definition partial_client : OathstoneClient :=
  {| config := {| networks := [("celo", partial_network)] |};
     providers := ∅;
     contracts := ∅ |}.

(** A connected instance whose token declares six decimals. *)
Definition usdc_token : TokenConfig :=
  {| contractAddress := Some "0x2F25deB3848C207fc8E0c34035B3Ba7fC157602B";
     address := None; abi := None;
     decimals := Some (DecimalsNumber 6);
     symbol := None; name := None |}.

Definition usdc_contract : Contract :=
  {| target := "0x2F25deB3848C207fc8E0c34035B3Ba7fC157602B";
     interface := ERC20_ABI;
     runner := Own celo_provider |}.

Definition usdc_loaded : World :=
  {| self := {| config := {| networks :=
                               [("celo", {| environment := 0;
                                            rpcUrl := Some alfajores;
                                            tokens := Some [("USDC", usdc_token)] |})] |};
                providers := {["celo" := celo_provider]};
                contracts := {["celo" := {["USDC" := usdc_contract]}]} |};
     trace := [] |}.

(** ** Descriptions used by the further properties *)

(** A normalized configuration handed back to the constructor. *)
Definition rewrap (cfg : OathstoneConfig) : RawConfig :=
  {| raw_networks :=
       Some (List.map (fun e : string * NetworkConfig => (e.1, Some e.2))
                      (networks cfg)) |}.

(** [networks[network]?.tokens?.[tokenName]?.decimals] read on the raw
    configuration. *)
Definition rawDecimals (entries : list (string * option NetworkConfig))
  (network tokenName : string) : option DecimalsField :=
  net ← entry network entries;
  nc ← net;
  tk ← entry tokenName (default [] (tokens nc));
  decimals tk.






(** The calls that submit a transaction. *)
Definition is_submission (c : RpcCall) : bool :=
  match c with
  | SendTransaction _ _ _ => true
  | Transfer _ _ _ _ => true
  | _ => false
  end.




(** ** Descriptions of what the contract constructor asks for *)

(** [!!value] on the answer of a lookup. *)
Definition present {A} (m : Member A) : bool :=
  match m with
  | Missing => false
  | _ => true
  end.

(** [transferToken] can learn the decimals of the binding [c]: the
    configuration gives a number, or the ABI describes [decimals]. *)
Definition decimals_known (w : World) (network tokenName : string) (c : Contract)
  : bool :=
  match decimalsFromConfig (config (self w)) network tokenName with
  | Some (DecimalsNumber _) => true
  | _ => has_function c "decimals"
  end.

(** The name the constructor has to resolve for a token, if any. *)
Definition name_to_resolve (tk : TokenConfig) : option string :=
  match Js.or (contractAddress tk) (address tk) with
  | Some addr => if resolvable tk && negb (isHexString addr) then Some addr else None
  | None => None
  end.

(** The constructor accepts the token of the network [n]: its address
    is hexadecimal, or the network has a provider to resolve the name. *)
Definition buildable (ps : gmap string Provider) (n : string) (tk : TokenConfig)
  : bool :=
  match name_to_resolve tk with
  | Some _ => match member ps n with Own _ => true | _ => false end
  | None => true
  end.

Definition token_calls (ps : gmap string Provider) (n : string)
  (e : string * TokenConfig) : list RpcCall :=
  match name_to_resolve e.2 with
  | Some addr => [ResolveName (member ps n) addr]
  | None => []
  end.





(** Some configured token of the pair has a resolvable address. *)
Definition configured_resolvable (nets : list (string * NetworkConfig))
  (n t : string) : Prop :=
  exists nc tks tk,
    In (n, nc) nets /\ tokens nc = Some tks /\ In (t, tk) tks
    /\ resolvable tk = true.

(** [w'] is [w] after some turns of the loading loops that may write
    the pairs in [W]: same configuration and providers, some name
    resolutions started, and every pair either as it was or written. *)
Definition loads (W : string -> string -> Prop) (w w' : World) : Prop :=
  config (self w') = config (self w)
  /\ providers (self w') = providers (self w)
  /\ (exists calls, trace w' = trace w ++ calls
                    /\ forallb is_resolution calls = true)
  /\ forall n t,
       binding (contracts (self w')) n t = binding (contracts (self w)) n t
       \/ (is_Some (binding (contracts (self w')) n t) /\ W n t).

(** The resolution [contract.connect(signer)] starts. *)
Definition connect_calls (signer : Wallet) (c : Contract) : list RpcCall :=
  if isHexString (target c) then []
  else [ResolveName (wallet_provider signer) (target c)].

(** A token kept apart from its address, under an inherited name. *)
Definition shadow_token : TokenConfig :=
  {| contractAddress := None; address := None; abi := None;
     decimals := Some (DecimalsNumber 6); symbol := None; name := None |}.

(** A network that answers as [steady_chain] does, on a runtime where
    [Object.name] is truthy. *)
Definition named_runtime : Ethers :=
  {| eth_getBalance := eth_getBalance steady_chain;
     eth_balanceOf := eth_balanceOf steady_chain;
     eth_decimals := eth_decimals steady_chain;
     eth_validKey := eth_validKey steady_chain;
     eth_sendTransaction := eth_sendTransaction steady_chain;
     eth_transfer := eth_transfer steady_chain;
     eth_wait := eth_wait steady_chain;
     js_builtin_truthy := fun a b => String.eqb a "constructor" && String.eqb b "name" |}.


(** A token configured by an ENS name instead of an address. *)
Definition named_token : TokenConfig :=
  {| contractAddress := Some "usd.tokens.eth"; address := None; abi := None;
     decimals := None; symbol := None; name := None |}.

Definition named_network : NetworkConfig :=
  {| environment := 0;
     rpcUrl := Some alfajores;
     tokens := Some [("EUR", addressless_token); ("USD", named_token)] |}.

(** A new instance whose only network names its token. *)
Definition named_client : OathstoneClient :=
  {| config := {| networks := [("celo", named_network)] |};
     providers := ∅;
     contracts := ∅ |}.

(** The binding the constructor builds for [named_token] on "celo". *)
Definition named_usd : Contract :=
  {| target := "usd.tokens.eth";
     interface := ERC20_ABI;
     runner := Own celo_provider |}.

(** An instance connected by hand to another network than the one whose
    token is named. *)
Definition named_elsewhere : World :=
  {| self := {| config := config named_client;
                providers := {["polygon" := {| endpoint := "https://polygon-rpc.com" |}]};
                contracts := ∅ |};
     trace := [] |}.
(** * Properties *)

(** ** Running methods *)

Lemma bind_ok {A B} (m : M A) (k : A -> M B) w a w' :
  m w = (Ok a, w') -> bind m k w = k a w'.
Proof. intros H. unfold bind. now rewrite H. Qed.

Lemma bind_err {A B} (m : M A) (k : A -> M B) w e w' :
  m w = (Err e, w') -> bind m k w = (Err e, w').
Proof. intros H. unfold bind. now rewrite H. Qed.

Lemma for_each_app {A} (l1 l2 : list A) (body : A -> M unit) w :
  for_each (l1 ++ l2) body w =
  bind (for_each l1 body) (fun _ => for_each l2 body) w.
Proof.
  revert w. induction l1 as [|x l1 IH]; intros w; simpl.
  - reflexivity.
  - unfold bind. destruct (body x w) as [[u|e] w1]; [|reflexivity].
    rewrite IH. reflexivity.
Qed.

(** ** C2: endpoint resolution *)

Example resolveRpcUrl_celo :
  resolveRpcUrl celo_network = Ok "https://alfajores-forno.celo-testnet.org".
Proof. reflexivity. Qed.

Example resolveRpcUrl_no_fallback :
  resolveRpcUrl {| environment := 0;
                   rpcUrl := Some {| testnet := None; mainnet := Some "https://forno.celo.org" |};
                   tokens := None |}
  = Err MissingRpcUrl.
Proof. reflexivity. Qed.

Lemma truthy_spec (o : option string) :
  Js.truthy o = true <-> exists s, o = Some s /\ s <> "".
Proof.
  destruct o as [s|]; simpl.
  - rewrite negb_true_iff, String.eqb_neq. split.
    + intros H. exists s. auto.
    + intros (s' & [= <-] & H). exact H.
  - split; [discriminate | intros (s & [=] & _)].
Qed.

Lemma truthy_false_spec (o : option string) :
  Js.truthy o = false <-> o = None \/ o = Some "".
Proof.
  destruct o as [s|]; simpl.
  - rewrite negb_false_iff, String.eqb_eq. split.
    + intros ->. now right.
    + intros [[=]|[= ->]]. reflexivity.
  - split; auto.
Qed.

(** C2. [resolveRpcUrl] answers with the testnet endpoint exactly when
    [environment] is 0 and with the mainnet endpoint otherwise; it
    returns that endpoint when it is a non-empty string, and throws when
    it is absent or empty, whatever the other endpoint holds. *)
Theorem resolveRpcUrl_selects_by_environment (nc : NetworkConfig) :
  let selected :=
    urls ← rpcUrl nc;
    if decide (environment nc = 0) then testnet urls else mainnet urls in
  (forall url, resolveRpcUrl nc = Ok url <-> selected = Some url /\ url <> "")
  /\ (forall e, resolveRpcUrl nc = Err e <->
                e = MissingRpcUrl /\ (selected = None \/ selected = Some "")).
Proof.
  intros selected.
  assert (Hsel : resolveRpcUrl nc =
                 if Js.truthy selected
                 then match selected with Some u => Ok u | None => Err MissingRpcUrl end
                 else Err MissingRpcUrl).
  { unfold resolveRpcUrl, selected.
    destruct (Z.eqb_spec (environment nc) 0) as [E|E];
      destruct (decide (environment nc = 0)); try contradiction;
      destruct (rpcUrl nc); reflexivity. }
  rewrite Hsel. clear Hsel.
  destruct (Js.truthy selected) eqn:T.
  - apply truthy_spec in T as (s & -> & Hs). split.
    + intros url. split.
      * intros [= <-]. auto.
      * intros [[= <-] _]. reflexivity.
    + intros e. split; [discriminate|].
      intros [_ [[=]|[= ->]]]. contradiction.
  - apply truthy_false_spec in T. split.
    + intros url. split; [discriminate|].
      intros [-> Hne]. destruct T as [[=]|[= ->]]. contradiction.
    + intros e. split.
      * intros [= <-]. auto.
      * intros [-> _]. reflexivity.
Qed.

(** ** C3 and C4: normalization *)






(** C4, as stated, fails: a token with neither address field and a
    network with neither endpoint are both accepted by normalization;
    the token keeps an absent canonical address. *)
Lemma normalize_accepts_incomplete_counterexample :
  normalize (Some addressless_config)
  = Ok {| networks :=
            [("celo", {| environment := 0; rpcUrl := Some alfajores;
                         tokens := Some [("USD", addressless_token)] |})] |}
  /\ normalize (Some endpointless_config)
     = Ok {| networks :=
               [("celo", {| environment := 0;
                            rpcUrl := Some {| testnet := None; mainnet := None |};
                            tokens := Some [] |})] |}.
Proof. split; reflexivity. Qed.

Lemma validateNetworks_fails_iff entries :
  is_ok (validateNetworks entries) = false <->
  exists n net, In (n, net) entries
                /\ (net = None \/ exists nc, net = Some nc /\ rpcUrl nc = None).
Proof.
  induction entries as [|[n0 net0] entries IH]; simpl.
  - split; [discriminate | intros (? & ? & [] & _)].
  - destruct (validateNetwork n0 net0) as [net0'|e0] eqn:E0.
    + assert (Hgood : exists nc urls, net0 = Some nc /\ rpcUrl nc = Some urls).
      { destruct net0 as [nc|]; [|discriminate]. simpl in E0.
        destruct (rpcUrl nc) as [urls|] eqn:U; [|discriminate]. eauto. }
      destruct Hgood as (nc0 & urls0 & -> & U0).
      destruct (validateNetworks entries) as [rest'|e] eqn:Er; simpl in *.
      * split; [discriminate|]. intros (n & net & [Heq|Hin] & Hbad).
        -- inversion Heq; subst. destruct Hbad as [[=]|(nc & [= <-] & Hnone)].
           congruence.
        -- destruct IH as [_ IH]. discriminate IH. eauto.
      * split; [|reflexivity]. intros _.
        destruct IH as [IH _]. destruct (IH eq_refl) as (n & net & Hin & Hbad).
        exists n, net. auto.
    + simpl. split; [|reflexivity]. intros _. exists n0, net0. split; [auto|].
      destruct net0 as [nc|]; [|auto]. right. exists nc. split; [reflexivity|].
      simpl in E0. destruct (rpcUrl nc); [discriminate | reflexivity].
Qed.

Lemma validateNetworks_error entries e :
  validateNetworks entries = Err e ->
  exists n net, In (n, net) entries /\ e = NetworkMissingRpcUrl n
                /\ (net = None \/ exists nc, net = Some nc /\ rpcUrl nc = None).
Proof.
  induction entries as [|[n0 net0] entries IH]; simpl; [discriminate|].
  destruct (validateNetwork n0 net0) as [net0'|e0] eqn:E0.
  - destruct (validateNetworks entries) as [rest'|e1]; [discriminate|].
    intros [= <-]. destruct (IH eq_refl) as (n & net & Hin & He & Hbad).
    exists n, net. auto.
  - intros [= <-]. exists n0, net0. split; [now left|].
    destruct net0 as [nc|]; simpl in E0.
    + destruct (rpcUrl nc) eqn:U; [discriminate|].
      inversion E0. split; [reflexivity|]. right. eauto.
    + inversion E0. auto.
Qed.

(** C4 (amended). Normalization fails exactly when the configuration or
    its [networks] field is absent (invalid configuration), or when some
    network entry is [null] or has no [rpcUrl] object (the error names
    such a network); otherwise it succeeds. Neither the endpoints inside
    [rpcUrl] nor the address fields of the tokens are looked at. *)
Theorem normalize_fails_iff (c : option RawConfig) :
  (is_ok (normalize c) = false <->
   c = None
   \/ (exists rc, c = Some rc /\ raw_networks rc = None)
   \/ (exists rc entries n net,
         c = Some rc /\ raw_networks rc = Some entries /\ In (n, net) entries
         /\ (net = None \/ exists nc, net = Some nc /\ rpcUrl nc = None)))
  /\ (forall e, normalize c = Err e ->
         (e = InvalidConfig
          /\ (c = None \/ exists rc, c = Some rc /\ raw_networks rc = None))
         \/ (exists rc entries n net,
               c = Some rc /\ raw_networks rc = Some entries /\ In (n, net) entries
               /\ e = NetworkMissingRpcUrl n
               /\ (net = None \/ exists nc, net = Some nc /\ rpcUrl nc = None))).
Proof.
  destruct c as [rc|]; simpl.
  2:{ split; [split; auto|]. intros e [= <-]. left. auto. }
  destruct (raw_networks rc) as [entries|] eqn:R; simpl.
  2:{ split.
      - split; [|reflexivity]. intros _. right. left. eauto.
      - intros e [= <-]. left. split; [reflexivity|]. right. eauto. }
  assert (Hv : is_ok (validateConfig entries) = is_ok (validateNetworks entries)).
  { unfold validateConfig. destruct (validateNetworks entries); reflexivity. }
  split.
  - rewrite Hv, validateNetworks_fails_iff. split.
    + intros (n & net & Hin & Hbad). right. right. exists rc, entries, n, net. auto.
    + intros [[=]|[(rc' & [= <-] & Hnone)|(rc' & entries' & n & net & [= <-] & He & Hin & Hbad)]].
      * congruence.
      * rewrite R in He. inversion He; subst. eauto.
  - intros e He. right. unfold validateConfig in He.
    destruct (validateNetworks entries) as [nets|e'] eqn:V; [discriminate|].
    inversion He; subst e'; clear He.
    destruct (validateNetworks_error entries e V) as (n & net & Hin & -> & Hbad).
    exists rc, entries, n, net. auto.
Qed.

Example normalize_rejects_missing_networks :
  normalize (Some {| raw_networks := None |}) = Err InvalidConfig.
Proof. reflexivity. Qed.

Example normalize_rejects_missing_rpcUrl :
  normalize (Some {| raw_networks :=
                       Some [("celo", Some celo_network);
                             ("polygon", Some {| environment := 1; rpcUrl := None;
                                                 tokens := None |})] |})
  = Err (NetworkMissingRpcUrl "polygon").
Proof. reflexivity. Qed.

(** ** Lookups and the guards of the four methods *)

Lemma member_own {A} (m : gmap string A) k a :
  m !! k = Some a -> member m k = Own a.
Proof. intros H. unfold member. now rewrite H. Qed.

Lemma member_plain {A} (m : gmap string A) k :
  m !! k = None -> inherited k = false -> member m k = Missing.
Proof. intros H I. unfold member. now rewrite H, I. Qed.

Lemma member_own_inv {A} (m : gmap string A) k a :
  member m k = Own a -> m !! k = Some a.
Proof.
  unfold member. destruct (m !! k) as [a0|].
  - intros H. inversion H. reflexivity.
  - destruct (inherited k); discriminate.
Qed.

Lemma contractAt_own (eth : Ethers) cs network tokenName c :
  binding cs network tokenName = Some c ->
  contractAt eth cs network tokenName = Own c.
Proof.
  unfold binding, contractAt. intros H.
  destruct (cs !! network) as [m|] eqn:E; [|discriminate]. cbn in H.
  rewrite (member_own _ _ _ E). now apply member_own.
Qed.

Lemma contractAt_own_inv (eth : Ethers) cs network tokenName c :
  contractAt eth cs network tokenName = Own c ->
  binding cs network tokenName = Some c.
Proof.
  unfold binding, contractAt, member at 1.
  destruct (cs !! network) as [m|]; cbn.
  - apply member_own_inv.
  - destruct (inherited network); cbn; try discriminate.
    destruct (js_builtin_truthy eth network tokenName); cbn; discriminate.
Qed.

Lemma contractAt_plain (eth : Ethers) cs network tokenName :
  cs !! network = None -> inherited network = false ->
  contractAt eth cs network tokenName = Missing.
Proof. intros H I. unfold contractAt. now rewrite (member_plain _ _ H I). Qed.

Lemma getNativeBalance_cases
  (eth : Ethers) (w : World) (network addr : string) :
  getNativeBalance eth network addr w =
  match member (providers (self w)) network with
  | Missing => (Err (ProviderNotInitialized network), w)
  | Inherited _ => (Err (TypeError "getBalance"), w)
  | Own p =>
      (match eth_getBalance eth (trace w) p addr with
       | Ok raw => Ok (Units.formatEther raw)
       | Err e => Err e
       end,
       with_calls [GetBalance p addr] w)
  end.
Proof.
  unfold getNativeBalance, getProvider, this.
  unfold bind at 1 2. cbn [ret].
  destruct (member (providers (self w)) network) as [p| |]; try reflexivity.
  unfold bind at 1. unfold issue at 1.
  destruct (eth_getBalance eth (trace w) p addr); reflexivity.
Qed.

Lemma getTokenBalance_cases
  (eth : Ethers) (w : World) (network tokenName addr : string) :
  getTokenBalance eth network tokenName addr w =
  match contractAt eth (contracts (self w)) network tokenName with
  | Missing => (Err (ContractNotFound tokenName network), w)
  | Inherited _ => (Err (TypeError "balanceOf"), w)
  | Own c =>
      if has_function c "balanceOf" then
        if has_function c "decimals" then
          (match eth_balanceOf eth (trace w) c addr with
           | Ok raw =>
               formatBalance raw
                 match eth_decimals eth (trace w ++ [BalanceOf c addr]) c with
                 | Ok d => d
                 | Err _ => 18%nat
                 end
           | Err e => Err e
           end,
           with_calls [BalanceOf c addr; Decimals c] w)
        else (Err (TypeError "decimals"), with_calls [BalanceOf c addr] w)
      else (Err (TypeError "balanceOf"), w)
  end.
Proof.
  unfold getTokenBalance, getContract, this.
  unfold bind at 1 2. cbn [ret].
  destruct (contractAt eth (contracts (self w)) network tokenName) as [c| |];
    try reflexivity.
  destruct (has_function c "balanceOf"); [|reflexivity].
  unfold bind at 1. unfold issue at 1.
  destruct (has_function c "decimals"); [|reflexivity].
  unfold bind at 1. unfold issue at 1.
  change (trace (with_calls [BalanceOf c addr] w))
    with (trace w ++ [BalanceOf c addr]).
  assert (Hw : with_calls [Decimals c] (with_calls [BalanceOf c addr] w)
               = with_calls [BalanceOf c addr; Decimals c] w).
  { unfold with_calls. cbn. now rewrite <- app_assoc. }
  rewrite Hw.
  destruct (eth_balanceOf eth (trace w) c addr) as [raw|e]; [|reflexivity].
  unfold bind at 1. cbn [await lift ret].
  destruct (eth_decimals eth (trace w ++ [BalanceOf c addr]) c) as [d|e];
    unfold bind; cbn [catch await lift ret];
    destruct (formatBalance raw _); reflexivity.
Qed.

(** ** C8: reads on a missing connection or binding *)

Example constructor_celo : constructor (Some celo_config) = Ok celo_client.
Proof. reflexivity. Qed.

(** C8 (the code at the failing inputs). A name that no registry holds
    but every plain object inherits passes the guard of the readers:
    [getNativeBalance] on "toString" and [getTokenBalance] on the token
    "toString" of a loaded network, or on "constructor"/"name" where the
    runtime finds [Object.name], end in a type error instead of
    "Provider not initialized" and "Contract not found". For every
    other name without a connection or a binding the guards throw those
    two errors. In all these cases the world is left as it was: no call
    has been issued. *)
Theorem balance_reads_guard_inherited_names (eth : Ethers) (addr : string) :
  getNativeBalance eth "toString" addr (fresh celo_client)
  = (Err (TypeError "getBalance"), fresh celo_client)
  /\ getTokenBalance eth "celo" "toString" addr celo_loaded
     = (Err (TypeError "balanceOf"), celo_loaded)
  /\ (js_builtin_truthy eth "constructor" "name" = true ->
      getTokenBalance eth "constructor" "name" addr (fresh celo_client)
      = (Err (TypeError "balanceOf"), fresh celo_client))
  /\ (forall w network,
        providers (self w) !! network = None -> inherited network = false ->
        getNativeBalance eth network addr w
        = (Err (ProviderNotInitialized network), w))
  /\ (forall w network tokenName,
        contractAt eth (contracts (self w)) network tokenName = Missing ->
        getTokenBalance eth network tokenName addr w
        = (Err (ContractNotFound tokenName network), w))
  /\ (forall w network tokenName,
        contracts (self w) !! network = None -> inherited network = false ->
        contractAt eth (contracts (self w)) network tokenName = Missing).
Proof.
  split; [now rewrite getNativeBalance_cases|].
  split; [now rewrite getTokenBalance_cases|].
  split.
  { intros H. rewrite getTokenBalance_cases.
    unfold contractAt, member. cbn [fresh self contracts celo_client].
    rewrite lookup_empty. change (inherited "constructor") with true.
    cbv iota. rewrite H. reflexivity. }
  split.
  { intros w network Hn Hi. rewrite getNativeBalance_cases.
    now rewrite (member_plain _ _ Hn Hi). }
  split.
  { intros w network tokenName H. rewrite getTokenBalance_cases. now rewrite H. }
  intros w network tokenName Hn Hi. now apply contractAt_plain.
Qed.

(** ** C10: a failing [connectNetworks] keeps the earlier providers *)

Lemma with_providers_self (w : World) :
  with_providers (providers (self w)) w = w.
Proof. destruct w as [[cfg ps cs] tr]. reflexivity. Qed.

Lemma connect_loop_ok entries :
  Forall resolves entries ->
  forall w, for_each entries connectNetwork w
            = (Ok tt, with_providers (connected entries (providers (self w))) w).
Proof.
  induction 1 as [|[m nc] entries Hm _ IH]; intros w; cbn [for_each].
  - unfold connected. cbn [fold_left]. now rewrite with_providers_self.
  - unfold resolves in Hm. cbn [snd] in Hm.
    destruct (resolveRpcUrl nc) as [url|] eqn:R; [|discriminate].
    unfold bind at 1. unfold connectNetwork. unfold bind at 1. rewrite R.
    cbn [lift ret this bind set_providers].
    rewrite IH. unfold connected. cbn [fold_left fst snd]. rewrite R. reflexivity.
Qed.

Lemma connect_loop_err pre n bad post e :
  Forall resolves pre ->
  resolveRpcUrl bad = Err e ->
  forall w, for_each (pre ++ (n, bad) :: post) connectNetwork w
            = (Err e, with_providers (connected pre (providers (self w))) w).
Proof.
  intros Hpre Hbad w. rewrite for_each_app.
  rewrite (bind_ok _ _ _ _ _ (connect_loop_ok pre Hpre w)).
  cbn [for_each]. unfold bind at 1. unfold connectNetwork. unfold bind at 1.
  rewrite Hbad. reflexivity.
Qed.

Lemma connected_preserves entries :
  forall ps m, is_Some (ps !! m) -> is_Some (connected entries ps !! m).
Proof.
  induction entries as [|[k nc] entries IH]; intros ps m H; simpl; [exact H|].
  apply IH. destruct (resolveRpcUrl nc); [|exact H].
  rewrite lookup_insert_is_Some. destruct (decide (k = m)); auto.
Qed.

Lemma connected_last_wins entries :
  Forall resolves entries ->
  forall ps m nc,
    In (m, nc) entries ->
    exists nc' url,
      In (m, nc') entries /\ resolveRpcUrl nc' = Ok url
      /\ connected entries ps !! m = Some {| endpoint := url |}.
Proof.
  induction entries as [|[k kc] entries IH] using rev_ind; intros Hall ps m nc Hin.
  - destruct Hin.
  - apply Forall_app in Hall as [Hpre Hlast].
    apply Forall_cons_iff in Hlast as [Hk _]. unfold resolves in Hk. simpl in Hk.
    destruct (resolveRpcUrl kc) as [url|] eqn:R; [|discriminate].
    unfold connected. rewrite fold_left_app. simpl. rewrite R.
    fold (connected entries ps).
    destruct (decide (k = m)) as [->|Hne].
    + exists kc, url. rewrite lookup_insert_eq.
      split; [apply in_or_app; right; left; reflexivity | auto].
    + rewrite lookup_insert_ne by exact Hne.
      apply in_app_or in Hin as [Hin|[Heq|[]]].
      * destruct (IH Hpre ps m nc Hin) as (nc' & url' & Hin' & Hr & Hl).
        exists nc', url'. split; [apply in_or_app; auto | auto].
      * inversion Heq. contradiction.
Qed.

(** C10. When the endpoint of some network does not resolve,
    [connectNetworks] throws that error and the instance keeps the
    providers created for the networks visited before it, next to the
    providers it already had: nothing is restored or cleared. *)
Theorem connectNetworks_not_atomic
  (w : World) (pre post : list (string * NetworkConfig)) n bad e :
  networks (config (self w)) = pre ++ (n, bad) :: post ->
  Forall resolves pre ->
  resolveRpcUrl bad = Err e ->
  exists w',
    connectNetworks w = (Err e, w')
    /\ (forall m nc, In (m, nc) pre ->
          exists nc' url,
            In (m, nc') pre /\ resolveRpcUrl nc' = Ok url
            /\ providers (self w') !! m = Some {| endpoint := url |})
    /\ (forall m, is_Some (providers (self w) !! m) ->
                  is_Some (providers (self w') !! m))
    /\ config (self w') = config (self w)
    /\ contracts (self w') = contracts (self w)
    /\ trace w' = trace w.
Proof.
  intros Hnets Hpre Hbad.
  exists (with_providers (connected pre (providers (self w))) w).
  split.
  - unfold connectNetworks, this. unfold bind at 1. rewrite Hnets.
    apply bind_err. now apply connect_loop_err.
  - cbn [with_providers self providers config contracts trace].
    split; [intros m nc Hin; now apply connected_last_wins with nc|].
    split; [intros m Hm; now apply connected_preserves|].
    auto.
Qed.

Lemma connectNetworks_not_atomic_witness :
  exists w',
    connectNetworks (fresh half_broken_client) = (Err MissingRpcUrl, w')
    /\ (forall m nc, In (m, nc) [("celo", celo_network)] ->
          exists nc' url,
            In (m, nc') [("celo", celo_network)] /\ resolveRpcUrl nc' = Ok url
            /\ providers (self w') !! m = Some {| endpoint := url |})
    /\ (forall m, is_Some (providers (self (fresh half_broken_client)) !! m) ->
                  is_Some (providers (self w') !! m))
    /\ config (self w') = config (self (fresh half_broken_client))
    /\ contracts (self w') = contracts (self (fresh half_broken_client))
    /\ trace w' = trace (fresh half_broken_client).
Proof.
  apply (connectNetworks_not_atomic
           (fresh half_broken_client) [("celo", celo_network)] []
           "polygon" broken_polygon MissingRpcUrl).
  - reflexivity.
  - repeat constructor.
  - reflexivity.
Defined.

Example connectNetworks_half_broken :
  exists w',
    connectNetworks (fresh half_broken_client) = (Err MissingRpcUrl, w')
    /\ providers (self w') !! "celo"
       = Some {| endpoint := "https://alfajores-forno.celo-testnet.org" |}
    /\ providers (self w') !! "polygon" = None.
Proof.
  eexists. split; [reflexivity|]. split; reflexivity.
Qed.

(** ** C1: the reads issued by [getTokenBalance] *)

Lemma getTokenBalance_calls
  (eth : Ethers) (w : World) (network tokenName addr : string) (c : Contract) :
  (contracts (self w) !! network ≫= fun m => m !! tokenName) = Some c ->
  has_function c "balanceOf" = true ->
  has_function c "decimals" = true ->
  snd (getTokenBalance eth network tokenName addr w)
  = with_calls [BalanceOf c addr; Decimals c] w.
Proof.
  intros H Hb Hd. rewrite getTokenBalance_cases.
  rewrite (contractAt_own eth _ _ _ _ H), Hb, Hd. reflexivity.
Qed.

Lemma celo_bootstrap :
  exists w1, connectNetworks (fresh celo_client) = (Ok true, w1)
             /\ loadContracts w1 = (Ok true, celo_loaded).
Proof.
  eexists. split; [reflexivity|].
  unfold celo_loaded. vm_compute. reflexivity.
Qed.

Example usdc_bootstrap :
  loadContracts {| self := {| config := config (self usdc_loaded);
                              providers := ∅; contracts := ∅ |};
                   trace := [] |}
  = (Ok true, usdc_loaded).
Proof. vm_compute. reflexivity. Qed.

(** C1 (the code at the failing input). With [celo_config], whose only
    token sets [decimals: 18], and after [connectNetworks] and
    [loadContracts], [getTokenBalance] issues one balance read and also
    one decimals read, whatever the network answers: the override of
    the configuration is not consulted on this path. *)
Theorem getTokenBalance_reads_decimals_despite_override
  (eth : Ethers) (addr : string) :
  constructor (Some celo_config) = Ok celo_client
  /\ decimalsFromConfig (config celo_client) "celo" "USD" = Some (DecimalsNumber 18)
  /\ (exists w1, connectNetworks (fresh celo_client) = (Ok true, w1)
                 /\ loadContracts w1 = (Ok true, celo_loaded))
  /\ trace (snd (getTokenBalance eth "celo" "USD" addr celo_loaded))
     = [BalanceOf celo_usd addr; Decimals celo_usd]
  /\ count_calls is_balance_read
       (trace (snd (getTokenBalance eth "celo" "USD" addr celo_loaded))) = 1%nat
  /\ count_calls is_decimals_read
       (trace (snd (getTokenBalance eth "celo" "USD" addr celo_loaded))) = 1%nat.
Proof.
  split; [reflexivity|]. split; [reflexivity|]. split; [exact celo_bootstrap|].
  rewrite (getTokenBalance_calls eth celo_loaded "celo" "USD" addr celo_usd)
    by reflexivity.
  repeat split.
Qed.

(** ** C5: the decimals of [transferToken] *)

Lemma with_calls_nil (w : World) : with_calls [] w = w.
Proof. destruct w. unfold with_calls. cbn. now rewrite app_nil_r. Qed.

Lemma with_calls_app (l1 l2 : list RpcCall) (w : World) :
  with_calls l2 (with_calls l1 w) = with_calls (l1 ++ l2) w.
Proof. unfold with_calls. cbn. now rewrite app_assoc. Qed.

Lemma transferDecimals_run
  (eth : Ethers) (w : World) (network tokenName : string) (c : Contract) :
  transferDecimals eth network tokenName (Own c) w =
  if decimals_known w network tokenName c
  then (Ok (decimals_used eth w network tokenName c),
        with_calls (decimals_reads w network tokenName c) w)
  else (Err (TypeError "decimals"), w).
Proof.
  unfold transferDecimals, this, decimals_known, decimals_used, decimals_reads.
  unfold bind at 1. cbn [self].
  destruct (decimalsFromConfig (config (self w)) network tokenName) as [[d|raw]|];
    try (cbn [ret]; now rewrite with_calls_nil);
    (destruct (has_function c "decimals"); [|reflexivity]);
    unfold bind, issue, await, catch; cbn;
    destruct (eth_decimals eth (trace w) c); reflexivity.
Qed.

(** [transferToken], case by case. *)
Lemma transferToken_cases
  (eth : Ethers) (w : World)
  (network tokenName fromPrivateKey toAddress amount : string) :
  transferToken eth network tokenName fromPrivateKey toAddress amount w =
  let found := member (providers (self w)) network in
  if present found then
    match contractAt eth (contracts (self w)) network tokenName with
    | Missing => (Err (ContractNotFound tokenName network), w)
    | Inherited _ =>
        match decimalsFromConfig (config (self w)) network tokenName with
        | Some (DecimalsNumber _) =>
            if eth_validKey eth fromPrivateKey
            then (Err (TypeError "connect"), w)
            else (Err InvalidPrivateKey, w)
        | _ => (Err (TypeError "decimals"), w)
        end
    | Own c =>
        if decimals_known w network tokenName c then
          let w1 := with_calls (decimals_reads w network tokenName c) w in
          if eth_validKey eth fromPrivateKey then
            let signer := {| signingKey := fromPrivateKey; wallet_provider := found |} in
            let w2 := with_calls (connect_calls signer c) w1 in
            match parseAmount amount (decimals_used eth w network tokenName c) with
            | Err e => (Err e, w2)
            | Ok value =>
                if has_function c "transfer" then
                  match eth_transfer eth (trace w2) signer c toAddress value with
                  | Err e => (Err e, with_calls [Transfer signer c toAddress value] w2)
                  | Ok hash =>
                      let w3 := with_calls [Transfer signer c toAddress value; Wait hash] w2 in
                      match eth_wait eth (trace w2 ++ [Transfer signer c toAddress value]) hash with
                      | Err e => (Err e, w3)
                      | Ok status =>
                          (Ok {| tx_network := network; tx_token := Some tokenName;
                                 tx_hash := hash; tx_status := status |}, w3)
                      end
                  end
                else (Err (TypeError "transfer"), w2)
            end
          else (Err InvalidPrivateKey, w1)
        else (Err (TypeError "decimals"), w)
    end
  else (Err (ProviderNotInitialized network), w).
Proof.
  cbv zeta.
  assert (Hbody : forall found : Member Provider,
    present found = true ->
    bind (getContract eth network tokenName)
      (fun contract =>
         match contract with
         | Missing => throw (ContractNotFound tokenName network)
         | foundContract =>
             bind (transferDecimals eth network tokenName foundContract)
               (fun decimals =>
                  bind (lift (newWallet (eth_validKey eth) fromPrivateKey found))
                    (fun signer =>
                       match foundContract with
                       | Own c =>
                           bind (connect signer c)
                             (fun _ =>
                                bind (lift (parseAmount amount decimals))
                                  (fun value =>
                                     if has_function c "transfer" then
                                       bind (issue (Transfer signer c toAddress value)
                                                   (fun h => eth_transfer eth h signer c toAddress value))
                                         (fun sent =>
                                            bind (await sent)
                                              (fun hash =>
                                                 bind (issue (Wait hash) (fun h => eth_wait eth h hash))
                                                   (fun mined =>
                                                      bind (await mined)
                                                        (fun status =>
                                                           ret {| tx_network := network;
                                                                  tx_token := Some tokenName;
                                                                  tx_hash := hash;
                                                                  tx_status := status |}))))
                                     else throw (TypeError "transfer")))
                       | _ => throw (TypeError "connect")
                       end))
         end) w
    = match contractAt eth (contracts (self w)) network tokenName with
      | Missing => (Err (ContractNotFound tokenName network), w)
      | Inherited _ =>
          match decimalsFromConfig (config (self w)) network tokenName with
          | Some (DecimalsNumber _) =>
              if eth_validKey eth fromPrivateKey
              then (Err (TypeError "connect"), w)
              else (Err InvalidPrivateKey, w)
          | _ => (Err (TypeError "decimals"), w)
          end
      | Own c =>
          if decimals_known w network tokenName c then
            if eth_validKey eth fromPrivateKey then
              match parseAmount amount (decimals_used eth w network tokenName c) with
              | Err e =>
                  (Err e,
                   with_calls (connect_calls {| signingKey := fromPrivateKey;
                                                wallet_provider := found |} c)
                     (with_calls (decimals_reads w network tokenName c) w))
              | Ok value =>
                  if has_function c "transfer" then
                    match eth_transfer eth
                            (trace (with_calls (connect_calls {| signingKey := fromPrivateKey;
                                                                 wallet_provider := found |} c)
                                      (with_calls (decimals_reads w network tokenName c) w)))
                            {| signingKey := fromPrivateKey; wallet_provider := found |}
                            c toAddress value with
                    | Err e =>
                        (Err e,
                         with_calls [Transfer {| signingKey := fromPrivateKey;
                                                 wallet_provider := found |} c toAddress value]
                           (with_calls (connect_calls {| signingKey := fromPrivateKey;
                                                        wallet_provider := found |} c)
                              (with_calls (decimals_reads w network tokenName c) w)))
                    | Ok hash =>
                        match eth_wait eth
                                (trace (with_calls (connect_calls {| signingKey := fromPrivateKey;
                                                                     wallet_provider := found |} c)
                                          (with_calls (decimals_reads w network tokenName c) w))
                                 ++ [Transfer {| signingKey := fromPrivateKey;
                                                 wallet_provider := found |} c toAddress value])
                                hash with
                        | Err e =>
                            (Err e,
                             with_calls [Transfer {| signingKey := fromPrivateKey;
                                                     wallet_provider := found |} c toAddress value;
                                         Wait hash]
                               (with_calls (connect_calls {| signingKey := fromPrivateKey;
                                                            wallet_provider := found |} c)
                                  (with_calls (decimals_reads w network tokenName c) w)))
                        | Ok status =>
                            (Ok {| tx_network := network; tx_token := Some tokenName;
                                   tx_hash := hash; tx_status := status |},
                             with_calls [Transfer {| signingKey := fromPrivateKey;
                                                     wallet_provider := found |} c toAddress value;
                                         Wait hash]
                               (with_calls (connect_calls {| signingKey := fromPrivateKey;
                                                            wallet_provider := found |} c)
                                  (with_calls (decimals_reads w network tokenName c) w)))
                        end
                    end
                  else
                    (Err (TypeError "transfer"),
                     with_calls (connect_calls {| signingKey := fromPrivateKey;
                                                  wallet_provider := found |} c)
                       (with_calls (decimals_reads w network tokenName c) w))
              end
            else (Err InvalidPrivateKey,
                  with_calls (decimals_reads w network tokenName c) w)
          else (Err (TypeError "decimals"), w)
      end).
  { intros found _. unfold getContract, this.
    unfold bind at 1 2. cbn [ret].
    destruct (contractAt eth (contracts (self w)) network tokenName) as [c|x|];
      [| |reflexivity].
    - unfold bind at 1. rewrite transferDecimals_run.
      destruct (decimals_known w network tokenName c); [|reflexivity].
      unfold newWallet.
      destruct (eth_validKey eth fromPrivateKey); [|reflexivity].
      unfold bind at 1. cbn [lift ret].
      set (signer := {| signingKey := fromPrivateKey; wallet_provider := found |}).
      set (w1 := with_calls (decimals_reads w network tokenName c) w).
      assert (Hconn : connect signer c w1
                      = (Ok tt, with_calls (connect_calls signer c) w1)).
      { unfold connect, connect_calls.
        destruct (isHexString (target c)); [cbn; now rewrite with_calls_nil|].
        reflexivity. }
      rewrite (bind_ok _ _ _ _ _ Hconn).
      destruct (parseAmount amount (decimals_used eth w network tokenName c))
        as [value|e]; [|reflexivity].
      unfold bind at 1. cbn [lift ret].
      destruct (has_function c "transfer"); [|reflexivity].
      unfold bind at 1. unfold issue at 1.
      destruct (eth_transfer eth _ signer c toAddress value) as [hash|e];
        [|reflexivity].
      unfold bind at 1. cbn [await lift ret].
      unfold bind at 1. unfold issue at 1.
      change (trace (with_calls [Transfer signer c toAddress value]
                       (with_calls (connect_calls signer c) w1)))
        with (trace (with_calls (connect_calls signer c) w1)
              ++ [Transfer signer c toAddress value]).
      rewrite (with_calls_app [Transfer signer c toAddress value] [Wait hash]).
      cbn [app].
      destruct (eth_wait eth _ hash); reflexivity.
    - unfold bind at 1. unfold transferDecimals, this. unfold bind at 1. cbn [self].
      destruct (decimalsFromConfig (config (self w)) network tokenName) as [[d|raw]|];
        try reflexivity.
      cbn [ret]. unfold newWallet.
      destruct (eth_validKey eth fromPrivateKey); reflexivity. }
  unfold transferToken, getProvider, this.
  unfold bind at 1 2. cbn [ret].
  destruct (member (providers (self w)) network) as [p|x|] eqn:Hm.
  - cbn [present]. now rewrite <- (Hbody (Own p)).
  - cbn [present]. now rewrite <- (Hbody (Inherited x)).
  - reflexivity.
Qed.

(** C5. For a connected network, a loaded token whose ABI describes
    [transfer], and a usable key, [transferToken] scales the amount with
    the [decimals] of the token's configuration when that field is a
    number (no decimals read is issued then); otherwise, the ABI
    describing [decimals], with the answer of the on-chain [decimals()]
    call; and with 18 when that call fails. The scaled amount is what
    the [transfer] call carries, and an amount that does not convert is
    rejected before any transfer. *)
Theorem transferToken_decimals_precedence
  (eth : Ethers) (w : World)
  (network tokenName fromPrivateKey toAddress amount : string)
  (p : Provider) (c : Contract) :
  providers (self w) !! network = Some p ->
  (contracts (self w) !! network ≫= fun m => m !! tokenName) = Some c ->
  eth_validKey eth fromPrivateKey = true ->
  decimals_known w network tokenName c = true ->
  has_function c "transfer" = true ->
  let override := decimalsFromConfig (config (self w)) network tokenName in
  let used :=
    match override with
    | Some (DecimalsNumber d) => d
    | _ => match eth_decimals eth (trace w) c with
           | Ok d => d
           | Err _ => 18%nat
           end
    end in
  let reads :=
    match override with
    | Some (DecimalsNumber _) => []
    | _ => [Decimals c]
    end in
  let signer := {| signingKey := fromPrivateKey; wallet_provider := Own p |} in
  let resolves := connect_calls signer c in
  match parseAmount amount used with
  | Ok value =>
      exists r rest,
        transferToken eth network tokenName fromPrivateKey toAddress amount w
        = (r, with_calls (reads ++ resolves ++ Transfer signer c toAddress value :: rest) w)
  | Err e =>
      transferToken eth network tokenName fromPrivateKey toAddress amount w
      = (Err e, with_calls (reads ++ resolves) w)
  end.
Proof.
  intros Hp Hc Hkey Hknown Htransfer override used reads signer resolves.
  rewrite transferToken_cases. cbv zeta.
  rewrite (member_own _ _ _ Hp). cbn [present].
  rewrite (contractAt_own eth _ _ _ _ Hc), Hknown, Hkey, Htransfer.
  fold signer. fold resolves.
  change (decimals_used eth w network tokenName c) with used.
  change (decimals_reads w network tokenName c) with reads.
  destruct (parseAmount amount used) as [value|e].
  - destruct (eth_transfer eth _ signer c toAddress value) as [hash|e].
    + destruct (eth_wait eth _ hash) as [status|e];
        eexists _, [Wait hash]; rewrite !with_calls_app, <- ?app_assoc;
        reflexivity.
    + eexists _, []. rewrite !with_calls_app, <- ?app_assoc. reflexivity.
  - now rewrite with_calls_app.
Qed.

Lemma transferToken_decimals_precedence_witness :
  exists r rest,
    transferToken steady_chain "celo" "USD" "0xkey" "0xrecipient" "5.5" celo_loaded
    = (r, with_calls
            ([] ++ [] ++ Transfer {| signingKey := "0xkey";
                                     wallet_provider := Own celo_provider |}
                                  celo_usd "0xrecipient" 5500000000000000000 :: rest)
            celo_loaded).
Proof.
  exact (transferToken_decimals_precedence
           steady_chain celo_loaded "celo" "USD" "0xkey" "0xrecipient" "5.5"
           celo_provider celo_usd eq_refl eq_refl eq_refl eq_refl eq_refl).
Defined.

(** ** C9: [loadContracts] skips the tokens without an address *)

Lemma with_contracts_self (w : World) :
  with_contracts (contracts (self w)) w = w.
Proof. destruct w as [[cfg ps cs] tr]. reflexivity. Qed.

Lemma with_load_self (w : World) :
  with_calls [] (with_contracts (contracts (self w)) w) = w.
Proof. now rewrite with_contracts_self, with_calls_nil. Qed.



Lemma newContract_run addr ab (r : Member Provider) (w : World) :
  newContract addr ab r w =
  if isHexString addr
  then (Ok {| target := addr; interface := ab; runner := r |}, w)
  else match r with
       | Own _ => (Ok {| target := addr; interface := ab; runner := r |},
                   with_calls [ResolveName r addr] w)
       | _ => (Err (UnsupportedOperation "resolveName"), w)
       end.
Proof.
  unfold newContract. destruct (isHexString addr); [reflexivity|].
  destruct r; reflexivity.
Qed.

Lemma loadToken_run (n : string) (e : string * TokenConfig) (w : World) :
  buildable (providers (self w)) n e.2 = true ->
  loadToken n e w
  = (Ok tt, with_calls (token_calls (providers (self w)) n e)
              (with_contracts
                 (load_token_step (providers (self w)) n (contracts (self w)) e) w)).
Proof.
  destruct e as [t tk].
  unfold loadToken, load_token_step, buildable, token_calls, name_to_resolve, resolvable.
  cbn [fst snd].
  destruct (Js.truthy (Js.or (contractAddress tk) (address tk))) eqn:T.
  2:{ intros _. destruct (Js.or (contractAddress tk) (address tk));
        now rewrite with_load_self. }
  destruct (Js.or (contractAddress tk) (address tk)) as [addr|];
    [|intros _; now rewrite with_load_self].
  cbn [andb]. unfold this. unfold bind at 1. cbn [self].
  unfold bind at 1. rewrite newContract_run.
  destruct (isHexString addr); cbn [negb].
  - intros _. unfold set_contracts. cbn. rewrite with_calls_nil.
    destruct (abi tk); reflexivity.
  - destruct (member (providers (self w)) n) as [p| |]; try discriminate.
    intros _. unfold set_contracts. cbn. destruct (abi tk); reflexivity.
Qed.

Lemma loadToken_fails (n : string) (e : string * TokenConfig) (w : World) :
  buildable (providers (self w)) n e.2 = false ->
  loadToken n e w = (Err (UnsupportedOperation "resolveName"), w).
Proof.
  destruct e as [t tk].
  unfold loadToken, buildable, name_to_resolve, resolvable. cbn [fst snd].
  destruct (Js.truthy (Js.or (contractAddress tk) (address tk))) eqn:T.
  2:{ destruct (Js.or (contractAddress tk) (address tk)); discriminate. }
  destruct (Js.or (contractAddress tk) (address tk)) as [addr|]; [|discriminate].
  cbn [andb]. unfold this. unfold bind at 1. cbn [self].
  unfold bind at 1. rewrite newContract_run.
  destruct (isHexString addr); cbn [negb]; [discriminate|].
  destruct (member (providers (self w)) n) as [p| |]; try discriminate;
    reflexivity.
Qed.





(** The second half of [loadContracts]: both loops, then [true]. *)
Lemma loadContracts_run (w : World) :
  loadContracts w =
  let load (w1 : World) :=
    match for_each (networks (config (self w1))) loadNetwork w1 with
    | (Ok _, w2) => (Ok true, w2)
    | (Err e, w2) => (Err e, w2)
    end in
  if Nat.eqb (size (providers (self w))) 0
  then match connectNetworks w with
       | (Ok _, w1) => load w1
       | (Err e, w1) => (Err e, w1)
       end
  else load w.
Proof.
  cbv zeta. unfold loadContracts. unfold this at 1. unfold bind at 1. cbn [self].
  destruct (Nat.eqb (size (providers (self w))) 0).
  - unfold bind at 1 2.
    destruct (connectNetworks w) as [[b|e] w1]; [|reflexivity].
    cbn [ret]. unfold this at 1. unfold bind at 1. unfold bind.
    destruct (for_each (networks (config (self w1))) loadNetwork w1) as [[u|e] w2];
      reflexivity.
  - unfold bind at 1. cbn [ret]. unfold this at 1. unfold bind at 1. unfold bind.
    destruct (for_each (networks (config (self w))) loadNetwork w) as [[u|e] w2];
      reflexivity.
Qed.

Lemma binding_touch cs n n' t' :
  binding (<[n := default ∅ (cs !! n)]> cs) n' t' = binding cs n' t'.
Proof.
  unfold binding. destruct (decide (n = n')) as [->|Hne].
  - rewrite lookup_insert_eq. destruct (cs !! n'); reflexivity.
  - now rewrite lookup_insert_ne.
Qed.

Lemma binding_bind cs n t c n' t' :
  binding (<[n := <[t := c]> (default ∅ (cs !! n))]> cs) n' t'
  = if decide (n = n' /\ t = t') then Some c else binding cs n' t'.
Proof.
  unfold binding. destruct (decide (n = n')) as [->|Hne].
  - rewrite lookup_insert_eq. cbn. destruct (decide (t = t')) as [->|Hne].
    + rewrite lookup_insert_eq. rewrite decide_True by auto. reflexivity.
    + rewrite lookup_insert_ne by exact Hne.
      rewrite decide_False by (intros [_ ?]; contradiction).
      destruct (cs !! n'); reflexivity.
  - rewrite lookup_insert_ne by exact Hne.
    rewrite decide_False by (intros [? _]; contradiction). reflexivity.
Qed.

Lemma load_token_step_binding ps n cs t tk n' t' :
  binding (load_token_step ps n cs (t, tk)) n' t'
  = if decide (n = n' /\ t = t') then
      if resolvable tk then
        match Js.or (contractAddress tk) (address tk) with
        | Some addr => Some {| target := addr;
                               interface := default ERC20_ABI (abi tk);
                               runner := member ps n |}
        | None => binding cs n' t'
        end
      else binding cs n' t'
    else binding cs n' t'.
Proof.
  unfold load_token_step. cbn [fst snd].
  destruct (Js.or (contractAddress tk) (address tk)) as [addr|] eqn:A.
  - destruct (resolvable tk).
    + apply binding_bind.
    + now destruct (decide _).
  - destruct (decide _); [destruct (resolvable tk)|]; reflexivity.
Qed.











(** Whatever their outcome, the loading loops only start name
    resolutions and only write the pairs they are allowed to. *)
Lemma loads_refl W (w : World) : loads W w w.
Proof.
  repeat split; try reflexivity.
  - exists []. now rewrite app_nil_r.
  - intros n t. now left.
Qed.

Lemma loads_trans W (a b c : World) : loads W a b -> loads W b c -> loads W a c.
Proof.
  intros (C1 & P1 & (k1 & T1 & R1) & B1) (C2 & P2 & (k2 & T2 & R2) & B2).
  repeat split.
  - congruence.
  - congruence.
  - exists (k1 ++ k2). split.
    + now rewrite T2, T1, app_assoc.
    + rewrite forallb_app. now rewrite R1, R2.
  - intros n t. destruct (B2 n t) as [E2|[S2 W2]].
    + destruct (B1 n t) as [E1|[S1 W1]].
      * left. congruence.
      * right. split; [|exact W1]. now rewrite E2.
    + right. now split.
Qed.

Lemma loads_weaken (W W' : string -> string -> Prop) (a b : World) :
  (forall n t, W n t -> W' n t) -> loads W a b -> loads W' a b.
Proof.
  intros HW (C1 & P1 & T1 & B1). repeat split; try assumption.
  intros n t. destruct (B1 n t) as [E|[S2 W2]]; [now left|right].
  split; [exact S2|now apply HW].
Qed.

Lemma for_each_loads {A} W (body : A -> M unit) (P : A -> Prop) :
  (forall x w, P x -> loads W w (snd (body x w))) ->
  forall l w, (forall x, In x l -> P x) -> loads W w (snd (for_each l body w)).
Proof.
  intros Hbody l. induction l as [|x l IH]; intros w HP; cbn [for_each].
  - apply loads_refl.
  - assert (Hx := Hbody x w (HP x (or_introl eq_refl))).
    unfold bind. destruct (body x w) as [[u|e] w1]; cbn [snd] in *.
    + eapply loads_trans; [exact Hx|]. apply IH. intros y Hy. apply HP. now right.
    + exact Hx.
Qed.

Lemma is_resolution_token_calls ps n e :
  forallb is_resolution (token_calls ps n e) = true.
Proof. unfold token_calls. now destruct (name_to_resolve e.2). Qed.

Lemma loadToken_loads W n t tk (w : World) :
  (resolvable tk = true -> W n t) ->
  loads W w (snd (loadToken n (t, tk) w)).
Proof.
  intros HW. destruct (buildable (providers (self w)) n tk) eqn:B.
  - rewrite (loadToken_run n (t, tk) w B). cbn [snd].
    repeat split.
    + exists (token_calls (providers (self w)) n (t, tk)). split; [reflexivity|].
      apply is_resolution_token_calls.
    + intros n' t'.
      cbn [with_calls with_contracts self contracts].
      rewrite load_token_step_binding.
      destruct (decide (n = n' /\ t = t')) as [[<- <-]|]; [|now left].
      destruct (resolvable tk) eqn:R; [|now left].
      destruct (Js.or (contractAddress tk) (address tk)); [|now left].
      right. split; [eauto|now apply HW].
  - rewrite (loadToken_fails n (t, tk) w B). apply loads_refl.
Qed.

Lemma loadNetwork_loads W n nc (w : World) :
  (forall tks t tk, tokens nc = Some tks -> In (t, tk) tks ->
                    resolvable tk = true -> W n t) ->
  loads W w (snd (loadNetwork (n, nc) w)).
Proof.
  intros HW. unfold loadNetwork.
  unfold this at 1. unfold bind at 1 2. unfold set_contracts at 1.
  eapply loads_trans.
  2:{ apply (for_each_loads W (loadToken n)
               (fun e : string * TokenConfig =>
                  resolvable e.2 = true -> W n e.1)).
      - intros [t tk] w0 H. now apply loadToken_loads.
      - intros [t tk] Hin. cbn [fst snd]. intros R.
        destruct (tokens nc) as [tks|] eqn:T; [|contradiction].
        now apply (HW tks t tk). }
  repeat split.
  - exists []. cbn. now rewrite app_nil_r.
  - intros n' t'. left. cbn. apply binding_touch.
Qed.

Lemma load_loop_loads (w : World) :
  loads (configured_resolvable (networks (config (self w)))) w
        (snd (for_each (networks (config (self w))) loadNetwork w)).
Proof.
  apply (for_each_loads _ loadNetwork
           (fun e => In e (networks (config (self w))))).
  - intros [n nc] w0 Hin. apply loadNetwork_loads.
    intros tks t tk T Ht R. now exists nc, tks, tk.
  - auto.
Qed.


Example loadContracts_partial :
  exists w',
    loadContracts (fresh partial_client) = (Ok true, w')
    /\ providers (self w') !! "celo" = Some celo_provider
    /\ binding (contracts (self w')) "celo" "USD" = Some celo_usd
    /\ binding (contracts (self w')) "celo" "EUR" = None
    /\ trace w' = [].
Proof.
  eexists. split; [vm_compute; reflexivity|].
  repeat split; vm_compute; reflexivity.
Qed.

Example loadContracts_bootstrap_fails :
  exists w', loadContracts (fresh half_broken_client) = (Err MissingRpcUrl, w')
             /\ contracts (self w') = ∅.
Proof. eexists. split; vm_compute; reflexivity. Qed.

(** A token given by name makes the constructor start a resolution on
    the provider of its network. *)
Example loadContracts_named :
  exists w',
    loadContracts (fresh named_client) = (Ok true, w')
    /\ binding (contracts (self w')) "celo" "USD" = Some named_usd
    /\ binding (contracts (self w')) "celo" "EUR" = None
    /\ trace w' = [ResolveName (Own celo_provider) "usd.tokens.eth"].
Proof.
  eexists. split; [vm_compute; reflexivity|].
  repeat split; vm_compute; reflexivity.
Qed.

(** Without a provider for its network, the same token makes the load
    throw; the token without an address before it left no binding. *)
Example loadContracts_named_fails :
  exists w',
    loadContracts named_elsewhere = (Err (UnsupportedOperation "resolveName"), w')
    /\ binding (contracts (self w')) "celo" "EUR" = None
    /\ binding (contracts (self w')) "celo" "USD" = None
    /\ trace w' = [].
Proof.
  eexists. split; [vm_compute; reflexivity|].
  repeat split; vm_compute; reflexivity.
Qed.

(** ** C6 and C7: unit conversion *)

Lemma digit_char_spec (d : Z) :
  0 <= d < 10 ->
  Units.is_digit (Units.digit_char d) = true
  /\ Units.digit_value (Units.digit_char d) = d.
Proof.
  intros H.
  assert (E : d = 0 \/ d = 1 \/ d = 2 \/ d = 3 \/ d = 4 \/ d = 5 \/ d = 6
              \/ d = 7 \/ d = 8 \/ d = 9) by lia.
  repeat (destruct E as [->|E]; [split; reflexivity|]).
  subst d. split; reflexivity.
Qed.

Lemma digits_value_acc (l : list ascii) (acc : Z) :
  fold_left (fun a c => 10 * a + Units.digit_value c) l acc
  = acc * 10 ^ Z.of_nat (length l) + Units.digits_value l.
Proof.
  unfold Units.digits_value. revert acc.
  induction l as [|c l IH]; intros acc; cbn [fold_left length].
  - cbn. lia.
  - rewrite IH. rewrite (IH (10 * 0 + Units.digit_value c)).
    rewrite Nat2Z.inj_succ, Z.pow_succ_r by lia. ring.
Qed.

Lemma digits_value_app (l1 l2 : list ascii) :
  Units.digits_value (l1 ++ l2)
  = Units.digits_value l1 * 10 ^ Z.of_nat (length l2) + Units.digits_value l2.
Proof.
  unfold Units.digits_value at 1. rewrite fold_left_app.
  fold (Units.digits_value l1). apply digits_value_acc.
Qed.

Lemma digits_value_single (c : ascii) :
  Units.digits_value [c] = Units.digit_value c.
Proof. unfold Units.digits_value. cbn. lia. Qed.

Lemma low_digits_length k : forall n, length (Units.low_digits k n) = k.
Proof.
  induction k as [|k IH]; intros n; cbn [Units.low_digits]; [reflexivity|].
  rewrite length_app, IH. cbn. lia.
Qed.

Lemma low_digits_digits k :
  forall n, forallb Units.is_digit (Units.low_digits k n) = true.
Proof.
  induction k as [|k IH]; intros n; cbn [Units.low_digits]; [reflexivity|].
  rewrite forallb_app, IH. cbn [forallb andb].
  destruct (digit_char_spec (n mod 10)) as [-> _]; [|reflexivity].
  apply Z.mod_pos_bound. lia.
Qed.

Lemma low_digits_value k :
  forall n, Units.digits_value (Units.low_digits k n) = n mod 10 ^ Z.of_nat k.
Proof.
  induction k as [|k IH]; intros n; cbn [Units.low_digits].
  - cbn. now rewrite Z.mod_1_r.
  - rewrite digits_value_app, IH, digits_value_single. cbn [length].
    destruct (digit_char_spec (n mod 10)) as [_ ->];
      [apply Z.mod_pos_bound; lia|].
    change (10 ^ Z.of_nat 1) with 10.
    rewrite (Nat2Z.inj_succ k), Z.pow_succ_r by lia.
    rewrite Z.rem_mul_r by lia. lia.
Qed.

Lemma numeral_fuel_value fuel :
  forall n, 0 <= n < 2 ^ Z.of_nat fuel ->
            Units.digits_value (Units.numeral_fuel fuel n) = n.
Proof.
  induction fuel as [|fuel IH]; intros n Hn; cbn [Units.numeral_fuel].
  - change (2 ^ Z.of_nat 0) with 1 in Hn. assert (n = 0) as -> by lia. reflexivity.
  - rewrite Nat2Z.inj_succ, Z.pow_succ_r in Hn by lia.
    destruct (Z.ltb_spec n 10) as [Hlt|Hge].
    + rewrite digits_value_single.
      destruct (digit_char_spec n) as [_ ->]; [lia | reflexivity].
    + rewrite digits_value_app, digits_value_single. cbn [length].
      change (10 ^ Z.of_nat 1) with 10.
      destruct (digit_char_spec (n mod 10)) as [_ ->];
        [apply Z.mod_pos_bound; lia|].
      rewrite IH.
      * rewrite (Z.div_mod n 10) at 3 by lia. lia.
      * split; [apply Z.div_pos; lia|].
        apply Z.div_lt_upper_bound; lia.
Qed.

Lemma numeral_fuel_digits fuel :
  forall n, 0 <= n -> forallb Units.is_digit (Units.numeral_fuel fuel n) = true.
Proof.
  induction fuel as [|fuel IH]; intros n Hn; cbn [Units.numeral_fuel]; [reflexivity|].
  destruct (Z.ltb_spec n 10) as [Hlt|Hge].
  - cbn [forallb andb]. destruct (digit_char_spec n) as [-> _]; [lia | reflexivity].
  - rewrite forallb_app, IH by (apply Z.div_pos; lia). cbn [forallb andb].
    destruct (digit_char_spec (n mod 10)) as [-> _]; [|reflexivity].
    apply Z.mod_pos_bound. lia.
Qed.

Lemma numeral_value n : 0 <= n -> Units.digits_value (Units.numeral n) = n.
Proof.
  intros Hn. unfold Units.numeral. apply numeral_fuel_value.
  split; [exact Hn|].
  rewrite Nat2Z.inj_succ, Z2Nat.id by apply Z.log2_nonneg.
  destruct (Z.eq_dec n 0) as [->|Hne]; [reflexivity|].
  apply Z.log2_spec. lia.
Qed.

Lemma numeral_digits n : 0 <= n -> forallb Units.is_digit (Units.numeral n) = true.
Proof. intros Hn. now apply numeral_fuel_digits. Qed.

Lemma numeral_nonempty n : Units.numeral n <> [].
Proof.
  unfold Units.numeral. cbn [Units.numeral_fuel].
  destruct (n <? 10); [discriminate|].
  intros H. apply app_eq_nil in H as [_ H]. discriminate.
Qed.

Lemma drop_zeros_split (r : list ascii) :
  exists j, r = repeat "0"%char j ++ Units.drop_zeros r.
Proof.
  induction r as [|c r [j IH]]; cbn [Units.drop_zeros].
  - exists 0%nat. reflexivity.
  - destruct (Ascii.eqb_spec c "0") as [->|Hne].
    + exists (S j). cbn [repeat app]. now rewrite <- IH.
    + exists 0%nat. reflexivity.
Qed.

Lemma trim_fraction_split (l : list ascii) :
  l <> [] -> exists j, l = Units.trim_fraction l ++ repeat "0"%char j.
Proof.
  intros Hl. unfold Units.trim_fraction.
  destruct (drop_zeros_split (rev l)) as [j Hj].
  assert (E : l = rev (Units.drop_zeros (rev l)) ++ repeat "0"%char j).
  { rewrite <- (rev_involutive l) at 1. rewrite Hj at 1.
    now rewrite rev_app_distr, rev_repeat. }
  destruct (rev (Units.drop_zeros (rev l))) as [|c t] eqn:T.
  - destruct j as [|j]; [now destruct Hl|].
    exists j. exact E.
  - exists j. exact E.
Qed.

Lemma forallb_drop_zeros (r : list ascii) :
  forallb Units.is_digit r = true ->
  forallb Units.is_digit (Units.drop_zeros r) = true.
Proof.
  induction r as [|c r IH]; cbn [Units.drop_zeros]; [auto|].
  intros H. destruct (Ascii.eqb c "0"); [|exact H].
  cbn [forallb] in H. apply andb_true_iff in H as [_ H]. auto.
Qed.

Lemma forallb_rev_true {A} (f : A -> bool) (l : list A) :
  forallb f l = true -> forallb f (rev l) = true.
Proof.
  rewrite !forallb_forall. intros H x Hx. apply H. now apply in_rev.
Qed.

Lemma trim_fraction_digits (l : list ascii) :
  forallb Units.is_digit l = true ->
  forallb Units.is_digit (Units.trim_fraction l) = true.
Proof.
  intros H. unfold Units.trim_fraction.
  assert (D : forallb Units.is_digit (rev (Units.drop_zeros (rev l))) = true).
  { now apply forallb_rev_true, forallb_drop_zeros, forallb_rev_true. }
  destruct (rev (Units.drop_zeros (rev l))); [reflexivity | exact D].
Qed.

Lemma zeros_value (j : nat) : Units.digits_value (repeat "0"%char j) = 0.
Proof.
  induction j as [|j IH]; [reflexivity|].
  change (repeat "0"%char (S j)) with (["0"%char] ++ repeat "0"%char j).
  rewrite digits_value_app, IH. reflexivity.
Qed.

Lemma split_point_digits (w : list ascii) :
  forallb Units.is_digit w = true ->
  Units.split_point w = (w, None)
  /\ forall f, Units.split_point (w ++ "."%char :: f) = (w, Some f).
Proof.
  induction w as [|c w IH]; intros H.
  - split; reflexivity.
  - cbn [forallb] in H. apply andb_true_iff in H as [Hc Hw].
    destruct (IH Hw) as [IH1 IH2].
    assert (Hdot : Ascii.eqb c "." = false).
    { destruct (Ascii.eqb_spec c ".") as [->|]; [discriminate Hc | reflexivity]. }
    split.
    + cbn [Units.split_point]. now rewrite Hdot, IH1.
    + intros f. cbn [Units.split_point app]. now rewrite Hdot, IH2.
Qed.

(** Formatting loses nothing: scaling the formatted string back by the
    same number of decimals returns the raw balance. *)
Lemma formatUnits_parseUnits (v : Z) (d : nat) :
  Units.parseUnits (Units.formatUnits v d) d = Some v.
Proof.
  unfold Units.formatUnits, Units.parseUnits.
  rewrite list_ascii_of_string_of_list_ascii.
  set (a := Z.abs v). set (scale := 10 ^ Z.of_nat d).
  assert (Ha : 0 <= a) by apply Z.abs_nonneg.
  assert (Hscale : 0 < scale) by (apply Z.pow_pos_nonneg; lia).
  (* the unsigned body, and what it splits into *)
  set (frac := match d with
               | O => []
               | S _ => Units.trim_fraction (Units.low_digits d (a mod scale))
               end).
  set (whole := Units.numeral (a / scale)).
  set (body := match d with
               | O => Units.numeral a
               | S _ => whole ++ "."%char :: frac
               end).
  assert (Hw : forallb Units.is_digit whole = true).
  { apply numeral_digits. apply Z.div_pos; lia. }
  assert (Hsplit : Units.split_point body = (whole, match d with O => None | S _ => Some frac end)).
  { subst body. destruct d.
    - subst whole scale. change (10 ^ Z.of_nat 0) with 1. rewrite Z.div_1_r.
      apply split_point_digits. now apply numeral_digits.
    - now apply split_point_digits. }
  assert (Hf : forallb Units.is_digit frac = true).
  { subst frac. destruct d; [reflexivity|].
    apply trim_fraction_digits, low_digits_digits. }
  assert (Hval : Units.digits_value (whole ++ frac) * scale
                 = a * 10 ^ Z.of_nat (length frac)).
  { rewrite digits_value_app. subst whole. rewrite numeral_value by (apply Z.div_pos; lia).
    subst frac. destruct d as [|d'].
    - subst scale. cbn [length]. change (10 ^ Z.of_nat 0) with 1.
      rewrite Z.div_1_r. change (Units.digits_value []) with 0. lia.
    - set (low := Units.low_digits (S d') (a mod scale)).
      destruct (trim_fraction_split low) as [j Hj].
      { intros E. apply (f_equal (@length _)) in E.
        subst low. rewrite low_digits_length in E. discriminate. }
      set (t := Units.trim_fraction low) in *.
      assert (Hlen : (length t + j = S d')%nat).
      { apply (f_equal (@length _)) in Hj. subst low.
        rewrite low_digits_length, length_app, repeat_length in Hj. lia. }
      assert (Hlow : Units.digits_value low = a mod scale).
      { subst low. rewrite low_digits_value. fold scale.
        apply Z.mod_mod. lia. }
      rewrite Hj, digits_value_app, zeros_value, repeat_length in Hlow.
      assert (Hsc : scale = 10 ^ Z.of_nat (length t) * 10 ^ Z.of_nat j).
      { subst scale. rewrite <- Hlen, Nat2Z.inj_add, Z.pow_add_r by lia. reflexivity. }
      rewrite (Z.div_mod a scale) at 2 by lia.
      rewrite Z.add_0_r in Hlow. rewrite <- Hlow.
      generalize (a / scale). intros q. rewrite Hsc. ring. }
  (* the sign *)
  assert (Hhead : forall r, exists c r', body ++ r = c :: r' /\ Ascii.eqb c "-" = false).
  { intros r.
    assert (Hd : exists c n', forallb Units.is_digit (c :: n') = true
                              /\ exists r0, body ++ r = (c :: n') ++ r0).
    { subst body. destruct d.
      - destruct (Units.numeral a) as [|c n'] eqn:N; [now apply numeral_nonempty in N|].
        exists c, n'. split; [rewrite <- N; now apply numeral_digits | eauto].
      - subst whole.
        destruct (Units.numeral (a / scale)) as [|c n'] eqn:N;
          [now apply numeral_nonempty in N|].
        exists c, n'. split; [exact Hw|]. rewrite <- app_assoc. eauto. }
    destruct Hd as (c & n' & Hd & r0 & ->). exists c, (n' ++ r0).
    split; [reflexivity|].
    cbn [forallb] in Hd. apply andb_true_iff in Hd as [Hc _].
    destruct (Ascii.eqb_spec c "-") as [->|]; [discriminate Hc | reflexivity]. }
  assert (Hparse : forall negative : bool,
             Units.scale_digits negative body d
             = Some ((if negative then -1 else 1) * a)).
  { intros negative. unfold Units.scale_digits. rewrite Hsplit.
    assert (Hfr : default [] (match d with O => None | S _ => Some frac end) = frac).
    { subst frac. destruct d; reflexivity. }
    cbv beta iota zeta. rewrite Hfr, Hw, Hf. cbn [andb].
    assert (Hne : Nat.eqb (length whole + length frac) 0 = false).
    { apply Nat.eqb_neq. subst whole.
      destruct (Units.numeral (a / scale)) eqn:N; [now apply numeral_nonempty in N|].
      cbn [length]. lia. }
    rewrite Hne. cbn [negb]. fold scale. rewrite Hval.
    rewrite Z.mod_mul by (apply Z.pow_nonzero; lia).
    rewrite Z.div_mul by (apply Z.pow_nonzero; lia).
    reflexivity. }
  fold body.
  destruct (Z.ltb_spec v 0) as [Hneg|Hpos].
  - replace (match d with
             | O => ["-"%char] ++ Units.numeral a
             | S _ => ["-"%char] ++ whole ++ "."%char :: Units.trim_fraction (Units.low_digits d (a mod scale))
             end) with ("-"%char :: body) by (subst body frac; now destruct d).
    change (Ascii.eqb "-" "-") with true. cbv iota beta.
    rewrite (Hparse true). f_equal. subst a. lia.
  - replace (match d with
             | O => [] ++ Units.numeral a
             | S _ => [] ++ whole ++ "."%char :: Units.trim_fraction (Units.low_digits d (a mod scale))
             end) with body by (subst body frac; now destruct d).
    destruct (Hhead []) as (c & r' & Hb & Hc). rewrite app_nil_r in Hb.
    rewrite Hb, Hc. rewrite <- Hb.
    rewrite (Hparse false). f_equal. subst a. lia.
Qed.

Lemma getNativeBalance_formats
  (eth : Ethers) (w : World) (network addr : string) (p : Provider) (raw : Z) :
  providers (self w) !! network = Some p ->
  eth_getBalance eth (trace w) p addr = Ok raw ->
  getNativeBalance eth network addr w
  = (Ok (Units.formatUnits raw 18), with_calls [GetBalance p addr] w).
Proof.
  intros Hp Hraw. rewrite getNativeBalance_cases, (member_own _ _ _ Hp), Hraw.
  reflexivity.
Qed.

Lemma getTokenBalance_formats
  (eth : Ethers) (w : World) (network tokenName addr : string)
  (c : Contract) (raw : Z) :
  (contracts (self w) !! network ≫= fun m => m !! tokenName) = Some c ->
  has_function c "balanceOf" = true ->
  has_function c "decimals" = true ->
  eth_balanceOf eth (trace w) c addr = Ok raw ->
  getTokenBalance eth network tokenName addr w
  = (formatBalance raw
       match eth_decimals eth (trace w ++ [BalanceOf c addr]) c with
       | Ok d => d
       | Err _ => 18%nat
       end,
     with_calls [BalanceOf c addr; Decimals c] w).
Proof.
  intros Hc Hb Hd Hraw.
  rewrite getTokenBalance_cases, (contractAt_own eth _ _ _ _ Hc), Hb, Hd, Hraw.
  reflexivity.
Qed.

(** C7. A raw balance of 1500000000000000000 at 18 decimals is formatted
    as "1.5" and a raw balance of 0 as "0.0", by [formatUnits] and by the
    two balance readers that call it (the token reader on a binding
    whose ABI describes both reads); the formatting is exact for every
    balance and every number of decimals, since scaling the string back
    returns the raw balance. *)
Theorem balance_formatting_is_exact :
  Units.formatUnits 1500000000000000000 18 = "1.5"
  /\ Units.formatUnits 0 18 = "0.0"
  /\ (forall v d, Units.parseUnits (Units.formatUnits v d) d = Some v)
  /\ (forall eth w network addr p,
        providers (self w) !! network = Some p ->
        (eth_getBalance eth (trace w) p addr = Ok 1500000000000000000 ->
         fst (getNativeBalance eth network addr w) = Ok "1.5")
        /\ (eth_getBalance eth (trace w) p addr = Ok 0 ->
            fst (getNativeBalance eth network addr w) = Ok "0.0"))
  /\ (forall eth w network tokenName addr c,
        (contracts (self w) !! network ≫= fun m => m !! tokenName) = Some c ->
        has_function c "balanceOf" = true ->
        has_function c "decimals" = true ->
        eth_decimals eth (trace w ++ [BalanceOf c addr]) c = Ok 18%nat ->
        (eth_balanceOf eth (trace w) c addr = Ok 1500000000000000000 ->
         fst (getTokenBalance eth network tokenName addr w) = Ok "1.5")
        /\ (eth_balanceOf eth (trace w) c addr = Ok 0 ->
            fst (getTokenBalance eth network tokenName addr w) = Ok "0.0")).
Proof.
  split; [reflexivity|]. split; [reflexivity|].
  split; [exact formatUnits_parseUnits|]. split.
  - intros eth w network addr p Hp. split; intros Hraw;
      rewrite (getNativeBalance_formats eth w network addr p _ Hp Hraw);
      reflexivity.
  - intros eth w network tokenName addr c Hc Hb Hdec Hd. split; intros Hraw;
      rewrite (getTokenBalance_formats eth w network tokenName addr c _
                 Hc Hb Hdec Hraw), Hd;
      reflexivity.
Qed.

(** [transferNative], branch by branch. *)
Lemma transferNative_cases
  (eth : Ethers) (w : World)
  (network fromPrivateKey toAddress amount : string) :
  transferNative eth network fromPrivateKey toAddress amount w =
  let found := member (providers (self w)) network in
  if present found then
    if eth_validKey eth fromPrivateKey then
      let signer := {| signingKey := fromPrivateKey; wallet_provider := found |} in
      match parseAmount amount 18 with
      | Err e => (Err e, w)
      | Ok value =>
          match eth_sendTransaction eth (trace w) signer toAddress value with
          | Err e => (Err e, with_calls [SendTransaction signer toAddress value] w)
          | Ok hash =>
              let w2 := with_calls [SendTransaction signer toAddress value; Wait hash] w in
              match eth_wait eth (trace w ++ [SendTransaction signer toAddress value]) hash with
              | Err e => (Err e, w2)
              | Ok status =>
                  (Ok {| tx_network := network; tx_token := None;
                         tx_hash := hash; tx_status := status |}, w2)
              end
          end
      end
    else (Err InvalidPrivateKey, w)
  else (Err (ProviderNotInitialized network), w).
Proof.
  cbv zeta. unfold transferNative, getProvider, this.
  unfold bind at 1 2. cbn [ret self].
  assert (Hrun : forall found : Member Provider,
    (let* signer := lift (newWallet (eth_validKey eth) fromPrivateKey found) in
     let* value := lift (parseAmount amount 18) in
     let* sent := issue (SendTransaction signer toAddress value)
                        (fun h => eth_sendTransaction eth h signer toAddress value) in
     let* hash := await sent in
     let* mined := issue (Wait hash) (fun h => eth_wait eth h hash) in
     let* status := await mined in
     ret {| tx_network := network; tx_token := None;
            tx_hash := hash; tx_status := status |})%method w
    = if eth_validKey eth fromPrivateKey then
        let signer := {| signingKey := fromPrivateKey; wallet_provider := found |} in
        match parseAmount amount 18 with
        | Err e => (Err e, w)
        | Ok value =>
            match eth_sendTransaction eth (trace w) signer toAddress value with
            | Err e => (Err e, with_calls [SendTransaction signer toAddress value] w)
            | Ok hash =>
                let w2 := with_calls [SendTransaction signer toAddress value; Wait hash] w in
                match eth_wait eth (trace w ++ [SendTransaction signer toAddress value]) hash with
                | Err e => (Err e, w2)
                | Ok status =>
                    (Ok {| tx_network := network; tx_token := None;
                           tx_hash := hash; tx_status := status |}, w2)
                end
            end
        end
      else (Err InvalidPrivateKey, w)).
  { intros found. unfold newWallet.
    destruct (eth_validKey eth fromPrivateKey); [|reflexivity].
    cbv zeta. set (signer := {| signingKey := fromPrivateKey; wallet_provider := found |}).
    unfold bind at 1. cbn [lift ret].
    destruct (parseAmount amount 18) as [value|e]; [|reflexivity].
    unfold bind at 1. cbn [lift ret].
    unfold bind at 1. unfold issue at 1.
    destruct (eth_sendTransaction eth (trace w) signer toAddress value) as [hash|e].
    - unfold bind at 1. cbn [await lift ret].
      unfold bind at 1. unfold issue at 1.
      change (trace (with_calls [SendTransaction signer toAddress value] w))
        with (trace w ++ [SendTransaction signer toAddress value]).
      rewrite with_calls_app. cbn [app].
      destruct (eth_wait eth (trace w ++ [SendTransaction signer toAddress value]) hash);
        reflexivity.
    - reflexivity. }
  destruct (member (providers (self w)) network) as [p|b|]; cbn [present].
  - apply Hrun.
  - apply Hrun.
  - reflexivity.
Qed.

(** The scaled amount is the decimal amount times [10^decimals], exactly:
    [v] is the answer for [whole.frac] if and only if
    [v * 10^|frac| = whole‖frac * 10^decimals], and there is no answer
    when no integer satisfies this. *)
Lemma parseUnits_exact (whole frac : list ascii) (d : nat) :
  forallb Units.is_digit whole = true ->
  forallb Units.is_digit frac = true ->
  (length whole + length frac)%nat <> 0%nat ->
  forall v,
    Units.parseUnits (string_of_list_ascii (whole ++ "."%char :: frac)) d = Some v
    <-> v * 10 ^ Z.of_nat (length frac)
        = Units.digits_value (whole ++ frac) * 10 ^ Z.of_nat d.
Proof.
  intros Hw Hf Hne v.
  assert (Hpos : 0 < 10 ^ Z.of_nat (length frac)) by (apply Z.pow_pos_nonneg; lia).
  assert (Hbody : Units.parseUnits (string_of_list_ascii (whole ++ "."%char :: frac)) d
                  = Units.scale_digits false (whole ++ "."%char :: frac) d).
  { unfold Units.parseUnits. rewrite list_ascii_of_string_of_list_ascii.
    destruct whole as [|c whole']; [reflexivity|].
    cbn [app]. cbn [forallb] in Hw. apply andb_true_iff in Hw as [Hc _].
    destruct (Ascii.eqb_spec c "-") as [->|]; [discriminate Hc | reflexivity]. }
  rewrite Hbody. unfold Units.scale_digits.
  destruct (split_point_digits whole Hw) as [_ ->].
  cbv beta iota zeta. change (default [] (Some frac)) with frac.
  rewrite Hw, Hf. cbn [andb].
  apply Nat.eqb_neq in Hne. rewrite Hne. cbn [negb].
  set (N := Units.digits_value (whole ++ frac) * 10 ^ Z.of_nat d).
  set (D := 10 ^ Z.of_nat (length frac)) in *.
  destruct (Z.eqb_spec (N mod D) 0) as [E|E].
  - rewrite Z.mul_1_l. split.
    + intros [= <-]. rewrite (Z.div_mod N D) at 2 by lia. lia.
    + intros H. f_equal. rewrite <- H. apply Z.div_mul. lia.
  - split; [discriminate|]. intros H. destruct E.
    rewrite <- H. apply Z.mod_mul. lia.
Qed.

(** C6. Converting "5.5" at 6 decimals gives 5500000 and converting
    "0.0000001" at 6 decimals is rejected, by [parseUnits] and by
    [transferToken] on a token configured with six decimals: the first
    amount reaches the [transfer] call as 5500000, the second throws
    before any call. [transferNative] scales by 18 decimals in the same
    way. The conversion is exact: an answer [v] for [whole.frac]
    satisfies [v * 10^|frac| = whole‖frac * 10^decimals]. *)
Theorem amount_conversion_is_exact :
  Units.parseUnits "5.5" 6 = Some 5500000
  /\ Units.parseUnits "0.0000001" 6 = None
  /\ parseAmount "0.0000001" 6 = Err (InvalidAmount "0.0000001")
  /\ (forall eth key to,
        eth_validKey eth key = true ->
        transferToken eth "celo" "USDC" key to "0.0000001" usdc_loaded
        = (Err (InvalidAmount "0.0000001"), usdc_loaded)
        /\ exists r rest,
             transferToken eth "celo" "USDC" key to "5.5" usdc_loaded
             = (r, with_calls
                     (Transfer {| signingKey := key;
                                  wallet_provider := Own celo_provider |}
                               usdc_contract to 5500000 :: rest)
                     usdc_loaded))
  /\ (forall eth key to,
        eth_validKey eth key = true ->
        transferNative eth "celo" key to "0.0000000000000000001" usdc_loaded
        = (Err (InvalidAmount "0.0000000000000000001"), usdc_loaded)
        /\ exists r rest,
             transferNative eth "celo" key to "5.5" usdc_loaded
             = (r, with_calls
                     (SendTransaction {| signingKey := key;
                                         wallet_provider := Own celo_provider |}
                                      to 5500000000000000000 :: rest)
                     usdc_loaded))
  /\ (forall whole frac d v,
        forallb Units.is_digit whole = true ->
        forallb Units.is_digit frac = true ->
        (length whole + length frac)%nat <> 0%nat ->
        (Units.parseUnits (string_of_list_ascii (whole ++ "."%char :: frac)) d = Some v
         <-> v * 10 ^ Z.of_nat (length frac)
             = Units.digits_value (whole ++ frac) * 10 ^ Z.of_nat d)).
Proof.
  assert (Htoken : forall eth key to amount,
            eth_validKey eth key = true ->
            transferToken eth "celo" "USDC" key to amount usdc_loaded
            = let signer := {| signingKey := key;
                               wallet_provider := Own celo_provider |} in
              match parseAmount amount 6 with
              | Err e => (Err e, usdc_loaded)
              | Ok value =>
                  match eth_transfer eth [] signer usdc_contract to value with
                  | Err e => (Err e, with_calls [Transfer signer usdc_contract to value]
                                       usdc_loaded)
                  | Ok hash =>
                      let w3 := with_calls [Transfer signer usdc_contract to value;
                                            Wait hash] usdc_loaded in
                      match eth_wait eth [Transfer signer usdc_contract to value] hash with
                      | Err e => (Err e, w3)
                      | Ok status =>
                          (Ok {| tx_network := "celo"; tx_token := Some "USDC";
                                 tx_hash := hash; tx_status := status |}, w3)
                      end
                  end
              end).
  { intros eth key to amount Hkey. rewrite transferToken_cases. cbv zeta.
    rewrite (contractAt_own eth (contracts (self usdc_loaded)) "celo" "USDC" usdc_contract eq_refl).
    change (member (providers (self usdc_loaded)) "celo") with (Own celo_provider).
    cbn [present]. rewrite Hkey.
    change (decimals_known usdc_loaded "celo" "USDC" usdc_contract) with true.
    change (has_function usdc_contract "transfer") with true.
    change (decimals_used eth usdc_loaded "celo" "USDC" usdc_contract) with 6%nat.
    change (decimals_reads usdc_loaded "celo" "USDC" usdc_contract) with (@nil RpcCall).
    change (connect_calls {| signingKey := key; wallet_provider := Own celo_provider |}
              usdc_contract) with (@nil RpcCall).
    rewrite !with_calls_nil. reflexivity. }
  assert (Hnative : forall eth key to amount,
            eth_validKey eth key = true ->
            transferNative eth "celo" key to amount usdc_loaded
            = let signer := {| signingKey := key;
                               wallet_provider := Own celo_provider |} in
              match parseAmount amount 18 with
              | Err e => (Err e, usdc_loaded)
              | Ok value =>
                  match eth_sendTransaction eth [] signer to value with
                  | Err e => (Err e, with_calls [SendTransaction signer to value]
                                       usdc_loaded)
                  | Ok hash =>
                      let w2 := with_calls [SendTransaction signer to value; Wait hash]
                                  usdc_loaded in
                      match eth_wait eth [SendTransaction signer to value] hash with
                      | Err e => (Err e, w2)
                      | Ok status =>
                          (Ok {| tx_network := "celo"; tx_token := None;
                                 tx_hash := hash; tx_status := status |}, w2)
                      end
                  end
              end).
  { intros eth key to amount Hkey. rewrite transferNative_cases. cbv zeta.
    change (member (providers (self usdc_loaded)) "celo") with (Own celo_provider).
    cbn [present]. rewrite Hkey. reflexivity. }
  split; [reflexivity|]. split; [reflexivity|]. split; [reflexivity|]. split.
  - intros eth key to Hkey. split.
    + rewrite (Htoken eth key to _ Hkey). reflexivity.
    + rewrite (Htoken eth key to _ Hkey).
      change (parseAmount "5.5" 6) with (Ok 5500000 : result Z).
      cbv beta iota zeta.
      destruct (eth_transfer eth _ _ usdc_contract to 5500000) as [hash|e].
      * destruct (eth_wait eth _ hash); eexists _, [Wait hash]; reflexivity.
      * eexists _, []. reflexivity.
  - split; [|intros whole frac d v Hw Hf Hne; now apply parseUnits_exact].
    intros eth key to Hkey. split.
    + rewrite (Hnative eth key to _ Hkey). reflexivity.
    + rewrite (Hnative eth key to _ Hkey).
      change (parseAmount "5.5" 18) with (Ok 5500000000000000000 : result Z).
      cbv beta iota zeta.
      destruct (eth_sendTransaction eth _ _ to 5500000000000000000) as [hash|e].
      * destruct (eth_wait eth _ hash); eexists _, [Wait hash]; reflexivity.
      * eexists _, []. reflexivity.
Qed.
(** ** Unit conversion on sample amounts *)

Example formatUnits_usdc : Units.formatUnits 5500000 6 = "5.5".
Proof. reflexivity. Qed.

Example formatUnits_negative : Units.formatUnits (-1230000) 6 = "-1.23".
Proof. reflexivity. Qed.

Example formatUnits_no_decimals : Units.formatUnits 42 0 = "42".
Proof. reflexivity. Qed.

Example parseUnits_bare_point : Units.parseUnits "." 6 = None.
Proof. reflexivity. Qed.

Example parseUnits_exponent : Units.parseUnits "1e-7" 6 = None.
Proof. reflexivity. Qed.

Example parseUnits_leading_point : Units.parseUnits ".5" 1 = Some 5.
Proof. reflexivity. Qed.

(** * Further properties *)

(** ** Normalization *)

Lemma js_or_idem (a b : option string) : Js.or (Js.or a b) b = Js.or a b.
Proof.
  unfold Js.or. destruct (Js.truthy a) eqn:A.
  - now rewrite A.
  - now destruct (Js.truthy b).
Qed.

Lemma normalizeToken_idem (tk : TokenConfig) :
  normalizeToken (normalizeToken tk) = normalizeToken tk.
Proof. unfold normalizeToken. cbn. now rewrite js_or_idem. Qed.

Lemma normalizeTokens_idem (tks : list (string * TokenConfig)) :
  normalizeTokens (normalizeTokens tks) = normalizeTokens tks.
Proof.
  induction tks as [|[t tk] tks IH]; [reflexivity|].
  cbn. rewrite normalizeToken_idem. f_equal. exact IH.
Qed.

Lemma validateNetwork_fixed n net net' :
  validateNetwork n net = Ok net' -> validateNetwork n (Some net') = Ok net'.
Proof.
  destruct net as [nc|]; [|discriminate]. cbn.
  destruct (rpcUrl nc) as [urls|]; [|discriminate].
  intros [= <-]. cbn. now rewrite normalizeTokens_idem.
Qed.

Lemma validateNetworks_fixed entries nets :
  validateNetworks entries = Ok nets ->
  validateNetworks
    (List.map (fun e : string * NetworkConfig => (e.1, Some e.2)) nets)
  = Ok nets.
Proof.
  revert nets. induction entries as [|[n net] entries IH]; intros nets; cbn.
  - now intros [= <-].
  - destruct (validateNetwork n net) as [net'|] eqn:V; [|discriminate].
    destruct (validateNetworks entries) as [rest|]; [|discriminate].
    intros [= <-]. cbn [List.map fst snd validateNetworks].
    rewrite (validateNetwork_fixed _ _ _ V), (IH rest eq_refl). reflexivity.
Qed.

(** X1. Normalization is idempotent: a configuration that came out of
    the constructor's normalization is accepted again and comes out
    unchanged. *)
Theorem normalize_idempotent (c : option RawConfig) (cfg : OathstoneConfig) :
  normalize c = Ok cfg -> normalize (Some (rewrap cfg)) = Ok cfg.
Proof.
  destruct c as [rc|]; [|discriminate]. cbn.
  destruct (raw_networks rc) as [entries|]; [|discriminate].
  unfold validateConfig.
  destruct (validateNetworks entries) as [nets|] eqn:V; [|discriminate].
  intros [= <-]. cbn. now rewrite (validateNetworks_fixed _ _ V).
Qed.

Lemma normalize_idempotent_witness :
  normalize (Some (rewrap {| networks := [("celo", celo_network)] |}))
  = Ok {| networks := [("celo", celo_network)] |}.
Proof.
  apply (normalize_idempotent (Some celo_config)). reflexivity.
Defined.





Lemma entry_normalizeTokens t (tks : list (string * TokenConfig)) :
  entry t (normalizeTokens tks) = normalizeToken <$> entry t tks.
Proof.
  induction tks as [|[t0 tk0] tks IH]; [reflexivity|]. cbn.
  destruct (String.eqb t0 t); [reflexivity | exact IH].
Qed.

Lemma entry_validateNetworks n entries nets :
  validateNetworks entries = Ok nets ->
  entry n nets =
  (net ← entry n entries; nc ← net;
   Some {| environment := environment nc;
           rpcUrl := rpcUrl nc;
           tokens := Some (normalizeTokens (default [] (tokens nc))) |}).
Proof.
  revert nets. induction entries as [|[n0 net0] entries IH]; intros nets; cbn.
  - now intros [= <-].
  - destruct (validateNetwork n0 net0) as [net0'|] eqn:V; [|discriminate].
    destruct (validateNetworks entries) as [rest|]; [|discriminate].
    intros [= <-]. cbn. destruct (String.eqb n0 n).
    + destruct net0 as [nc|]; [|discriminate]. cbn in V |- *.
      destruct (rpcUrl nc) as [urls|]; [|discriminate]. now inversion V.
    + now apply IH.
Qed.

(** X3. The decimals override that [transferToken] reads in the
    normalized configuration is the one written in the raw
    configuration, for every network and token name. *)
Theorem decimalsFromConfig_of_raw entries cfg (network tokenName : string) :
  validateConfig entries = Ok cfg ->
  decimalsFromConfig cfg network tokenName = rawDecimals entries network tokenName.
Proof.
  unfold validateConfig.
  destruct (validateNetworks entries) as [nets|] eqn:V; [|discriminate].
  intros [= <-]. unfold decimalsFromConfig, rawDecimals. cbn [networks].
  rewrite (entry_validateNetworks network _ _ V).
  destruct (entry network entries) as [[nc|]|]; try reflexivity. cbn.
  rewrite entry_normalizeTokens.
  destruct (entry tokenName (default [] (tokens nc))); reflexivity.
Qed.

Lemma decimalsFromConfig_of_raw_witness :
  decimalsFromConfig {| networks := [("celo", celo_network)] |} "celo" "USD"
  = rawDecimals [("celo", Some celo_network)] "celo" "USD".
Proof.
  apply (decimalsFromConfig_of_raw [("celo", Some celo_network)]). reflexivity.
Defined.

(** ** The registries *)

Lemma resolveRpcUrl_error nc e : resolveRpcUrl nc = Err e -> e = MissingRpcUrl.
Proof.
  unfold resolveRpcUrl.
  destruct (Js.truthy _); [|now intros [= <-]].
  destruct (if environment nc =? 0 then _ else _); [discriminate|now intros [= <-]].
Qed.

(** Either every entry resolves, or there is a first one that does not. *)
Lemma resolves_or_first_failure (nets : list (string * NetworkConfig)) :
  Forall resolves nets
  \/ exists pre n bad post e,
       nets = pre ++ (n, bad) :: post /\ Forall resolves pre
       /\ resolveRpcUrl bad = Err e.
Proof.
  induction nets as [|[n nc] nets IH]; [left; constructor|].
  destruct (resolveRpcUrl nc) as [url|e] eqn:R.
  - destruct IH as [IH|(pre & m & bad & post & e & -> & Hpre & Hbad)].
    + left. constructor; [unfold resolves; cbn; now rewrite R | exact IH].
    + right. exists ((n, nc) :: pre), m, bad, post, e.
      repeat split; auto. constructor; [unfold resolves; cbn; now rewrite R | exact Hpre].
  - right. exists [], n, nc, nets, e. repeat split; auto.
Qed.

Lemma not_resolves_failure (pre post : list (string * NetworkConfig)) n bad e :
  resolveRpcUrl bad = Err e -> ~ Forall resolves (pre ++ (n, bad) :: post).
Proof.
  intros Hbad H. apply Forall_app in H as [_ H].
  apply Forall_cons_iff in H as [H _]. unfold resolves in H. cbn in H.
  rewrite Hbad in H. discriminate.
Qed.

Lemma connectNetworks_ok (w : World) :
  Forall resolves (networks (config (self w))) ->
  connectNetworks w
  = (Ok true,
     with_providers (connected (networks (config (self w))) (providers (self w))) w).
Proof.
  intros H. unfold connectNetworks, this. unfold bind at 1.
  rewrite (bind_ok _ _ _ _ _ (connect_loop_ok _ H w)). reflexivity.
Qed.

Lemma connectNetworks_err (w : World) (pre post : list (string * NetworkConfig))
  n bad e :
  networks (config (self w)) = pre ++ (n, bad) :: post ->
  Forall resolves pre ->
  resolveRpcUrl bad = Err e ->
  connectNetworks w
  = (Err e, with_providers (connected pre (providers (self w))) w).
Proof.
  intros Hnets Hpre Hbad. unfold connectNetworks, this. unfold bind at 1.
  rewrite Hnets. apply bind_err. now apply connect_loop_err.
Qed.

(** X4. [connectNetworks] returns [true] exactly when the endpoint of
    every configured network resolves; otherwise it throws, and the only
    error it can throw is the missing endpoint of [resolveRpcUrl]. *)
Theorem connectNetworks_succeeds_iff (w : World) :
  (fst (connectNetworks w) = Ok true
   <-> Forall resolves (networks (config (self w))))
  /\ (forall e, fst (connectNetworks w) = Err e -> e = MissingRpcUrl)
  /\ (forall b, fst (connectNetworks w) = Ok b -> b = true).
Proof.
  destruct (resolves_or_first_failure (networks (config (self w))))
    as [Hall|(pre & n & bad & post & e & Hnets & Hpre & Hbad)].
  - rewrite (connectNetworks_ok w Hall). cbn.
    split; [tauto|]. split; [discriminate | now intros b [= <-]].
  - rewrite (connectNetworks_err w pre post n bad e Hnets Hpre Hbad). cbn.
    split; [|split; [|discriminate]].
    + split; [discriminate|]. intros H. rewrite Hnets in H.
      now apply (not_resolves_failure pre post n bad e) in H.
    + intros e' [= <-]. now apply resolveRpcUrl_error with bad.
Qed.


Lemma NoDup_fst_unique {A} (l : list (string * A)) k a b :
  NoDup (List.map fst l) -> In (k, a) l -> In (k, b) l -> a = b.
Proof.
  induction l as [|[k0 a0] l IH]; intros Hnd Ha Hb; [destruct Ha|].
  cbn in Hnd. apply NoDup_cons in Hnd as [Hnotin Hnd'].
  rewrite list_elem_of_In in Hnotin.
  destruct Ha as [Ha|Ha], Hb as [Hb|Hb].
  - congruence.
  - inversion Ha; subst. destruct Hnotin. apply in_map_iff. exists (k, b). auto.
  - inversion Hb; subst. destruct Hnotin. apply in_map_iff. exists (k, a). auto.
  - now apply IH.
Qed.



Lemma connected_lookup (entries : list (string * NetworkConfig)) :
  forall ps m,
    connected entries ps !! m =
    match connected entries ∅ !! m with
    | Some p => Some p
    | None => ps !! m
    end.
Proof.
  induction entries as [|[k nc] entries IH]; intros ps m.
  - cbn. now rewrite lookup_empty.
  - unfold connected. cbn [fold_left fst snd]. fold (connected entries).
    rewrite IH. rewrite (IH (match resolveRpcUrl nc with Ok _ => _ | Err _ => _ end)).
    destruct (connected entries ∅ !! m); [reflexivity|].
    destruct (resolveRpcUrl nc); [|now rewrite lookup_empty].
    destruct (decide (k = m)) as [->|Hne].
    + now rewrite !lookup_insert_eq.
    + rewrite !lookup_insert_ne by exact Hne. now rewrite lookup_empty.
Qed.

Lemma connected_idem (entries : list (string * NetworkConfig)) ps :
  connected entries (connected entries ps) = connected entries ps.
Proof.
  apply map_eq. intros m. rewrite connected_lookup.
  rewrite (connected_lookup entries ps).
  destruct (connected entries ∅ !! m); reflexivity.
Qed.

(** X6. [connectNetworks] is idempotent: called again on the instance it
    left, it gives the same outcome (the same [true] or the same error)
    and leaves the instance as it is; the providers are replaced by
    providers on the same endpoints. *)
Theorem connectNetworks_idempotent (w : World) :
  connectNetworks (snd (connectNetworks w)) = connectNetworks w.
Proof.
  destruct (resolves_or_first_failure (networks (config (self w))))
    as [Hall|(pre & n & bad & post & e & Hnets & Hpre & Hbad)].
  - rewrite (connectNetworks_ok w Hall). cbn [snd].
    rewrite connectNetworks_ok by exact Hall.
    cbn [with_providers self config providers].
    now rewrite connected_idem.
  - rewrite (connectNetworks_err w pre post n bad e Hnets Hpre Hbad). cbn [snd].
    rewrite (connectNetworks_err _ pre post n bad e) by assumption.
    cbn [with_providers self config providers].
    now rewrite connected_idem.
Qed.




















Lemma connectNetworks_world (w : World) :
  exists entries, snd (connectNetworks w)
                  = with_providers (connected entries (providers (self w))) w.
Proof.
  destruct (resolves_or_first_failure (networks (config (self w))))
    as [Hall|(pre & n & bad & post & e & Hnets & Hpre & Hbad)].
  - rewrite (connectNetworks_ok w Hall). eauto.
  - rewrite (connectNetworks_err w pre post n bad e Hnets Hpre Hbad). eauto.
Qed.

Lemma loadContracts_world (w : World) :
  exists w0,
    (w0 = w \/ w0 = snd (connectNetworks w))
    /\ (snd (loadContracts w) = w0
        \/ snd (loadContracts w)
           = snd (for_each (networks (config (self w0))) loadNetwork w0)).
Proof.
  rewrite loadContracts_run. cbv zeta.
  destruct (Nat.eqb (size (providers (self w))) 0).
  - exists (snd (connectNetworks w)). split; [now right|].
    destruct (connectNetworks w) as [[b|e] w0]; cbn [snd]; [right|now left].
    now destruct (for_each (networks (config (self w0))) loadNetwork w0) as [[u|e] w2].
  - exists w. split; [now left|]. right.
    now destruct (for_each (networks (config (self w))) loadNetwork w) as [[u|e] w2].
Qed.

(** X7. Neither [connectNetworks] nor [loadContracts] ever changes the
    configuration, and neither ever removes a provider or a binding,
    whether it returns or throws. [connectNetworks] issues no remote
    call and leaves the bindings alone; the only calls [loadContracts]
    can start are the name resolutions the contract constructor asks for
    when a token is given by name. *)
Theorem registries_only_grow (w : World) :
  let w1 := snd (connectNetworks w) in
  let w2 := snd (loadContracts w) in
  (config (self w1) = config (self w)
   /\ trace w1 = trace w
   /\ contracts (self w1) = contracts (self w)
   /\ forall m, is_Some (providers (self w) !! m) ->
                is_Some (providers (self w1) !! m))
  /\ (config (self w2) = config (self w)
      /\ (exists calls, trace w2 = trace w ++ calls
                        /\ forallb is_resolution calls = true)
      /\ (forall m, is_Some (providers (self w) !! m) ->
                    is_Some (providers (self w2) !! m))
      /\ forall n t, is_Some (binding (contracts (self w)) n t) ->
                     is_Some (binding (contracts (self w2)) n t)).
Proof.
  intros w1 w2.
  destruct (connectNetworks_world w) as (entries & Hw1). fold w1 in Hw1.
  assert (H1 : config (self w1) = config (self w)
               /\ trace w1 = trace w
               /\ contracts (self w1) = contracts (self w)
               /\ forall m, is_Some (providers (self w) !! m) ->
                            is_Some (providers (self w1) !! m)).
  { rewrite Hw1. cbn. repeat split. intros m. apply connected_preserves. }
  split; [exact H1|].
  assert (Hgrow : forall W a b, loads W a b ->
             config (self b) = config (self a)
             /\ (exists calls, trace b = trace a ++ calls
                               /\ forallb is_resolution calls = true)
             /\ (forall m, is_Some (providers (self a) !! m) ->
                           is_Some (providers (self b) !! m))
             /\ forall n t, is_Some (binding (contracts (self a)) n t) ->
                            is_Some (binding (contracts (self b)) n t)).
  { intros W a b (C & P & T & B). repeat split; try assumption.
    - intros m. now rewrite P.
    - intros n t H. destruct (B n t) as [E|[S _]]; [now rewrite E | exact S]. }
  assert (H0 : forall w0, w0 = w \/ w0 = w1 ->
             config (self w0) = config (self w)
             /\ (exists calls, trace w0 = trace w ++ calls
                               /\ forallb is_resolution calls = true)
             /\ (forall m, is_Some (providers (self w) !! m) ->
                           is_Some (providers (self w0) !! m))
             /\ forall n t, is_Some (binding (contracts (self w)) n t) ->
                            is_Some (binding (contracts (self w0)) n t)).
  { intros w0 [->| ->].
    - apply (Hgrow (fun _ _ => False)), loads_refl.
    - destruct H1 as (C & T & B & P). repeat split; try assumption.
      + exists []. now rewrite app_nil_r.
      + intros n t. now rewrite B. }
  destruct (loadContracts_world w) as (w0 & Hw0 & [E|E]); fold w2 in E;
    rewrite E; [now apply H0|].
  destruct (H0 w0 Hw0) as (C0 & (k0 & T0 & R0) & P0 & B0).
  destruct (Hgrow _ _ _ (load_loop_loads w0)) as (C & (k & T & R) & P & B).
  repeat split.
  - congruence.
  - exists (k0 ++ k). split; [now rewrite T, T0, app_assoc|].
    now rewrite forallb_app, R0, R.
  - auto.
  - auto.
Qed.







(** ** Balance reads and transfers *)

(** X11. On a loaded token whose ABI describes both reads,
    [getTokenBalance] issues the balance read and then the decimals
    read in every case. It fails when the balance read fails, with that
    error, or when the contract reports more decimals than the 80 the
    unit functions accept; a failing [decimals()] read never fails it:
    the balance is then formatted with 18 decimals. *)
Theorem getTokenBalance_only_balance_fails
  (eth : Ethers) (w : World) (network tokenName addr : string) (c : Contract) :
  (contracts (self w) !! network ≫= fun m => m !! tokenName) = Some c ->
  has_function c "balanceOf" = true ->
  has_function c "decimals" = true ->
  let decimals :=
    match eth_decimals eth (trace w ++ [BalanceOf c addr]) c with
    | Ok d => d
    | Err _ => 18%nat
    end in
  (forall e, fst (getTokenBalance eth network tokenName addr w) = Err e
             <-> eth_balanceOf eth (trace w) c addr = Err e
                 \/ ((exists raw, eth_balanceOf eth (trace w) c addr = Ok raw)
                     /\ (80 < decimals)%nat /\ e = InvalidDecimals decimals))
  /\ (forall raw, eth_balanceOf eth (trace w) c addr = Ok raw ->
                  (decimals <= 80)%nat ->
                  fst (getTokenBalance eth network tokenName addr w)
                  = Ok (Units.formatUnits raw decimals))
  /\ (forall raw e,
        eth_balanceOf eth (trace w) c addr = Ok raw ->
        eth_decimals eth (trace w ++ [BalanceOf c addr]) c = Err e ->
        fst (getTokenBalance eth network tokenName addr w)
        = Ok (Units.formatUnits raw 18))
  /\ snd (getTokenBalance eth network tokenName addr w)
     = with_calls [BalanceOf c addr; Decimals c] w.
Proof.
  intros Hc Hb Hd decimals.
  rewrite getTokenBalance_cases, (contractAt_own eth _ _ _ _ Hc), Hb, Hd.
  fold decimals. cbn [fst snd]. unfold formatBalance.
  split; [|split; [|split; [|reflexivity]]].
  - intros e. destruct (eth_balanceOf eth (trace w) c addr) as [raw|e0].
    + destruct (Nat.ltb_spec 80 decimals) as [Hlt|Hle]; split.
      * intros [= <-]. right. eauto.
      * intros [H|(_ & _ & ->)]; [discriminate | reflexivity].
      * discriminate.
      * intros [H|(_ & Hlt & _)]; [discriminate | lia].
    + split; [intros [= <-]; now left|].
      intros [H|((raw & H) & _)]; [congruence | discriminate].
  - intros raw -> Hle.
    destruct (Nat.ltb_spec 80 decimals) as [Hlt|_]; [lia | reflexivity].
  - intros raw e Hraw He. subst decimals. rewrite Hraw, He. reflexivity.
Qed.

Lemma getTokenBalance_only_balance_fails_witness :
  (forall e, fst (getTokenBalance steady_chain "celo" "USD" "0xabc" celo_loaded) = Err e
             <-> eth_balanceOf steady_chain (trace celo_loaded) celo_usd "0xabc" = Err e
                 \/ ((exists raw, eth_balanceOf steady_chain (trace celo_loaded)
                                                celo_usd "0xabc" = Ok raw)
                     /\ (80 < 6)%nat /\ e = InvalidDecimals 6))
  /\ (forall raw, eth_balanceOf steady_chain (trace celo_loaded) celo_usd "0xabc" = Ok raw ->
                  (6 <= 80)%nat ->
                  fst (getTokenBalance steady_chain "celo" "USD" "0xabc" celo_loaded)
                  = Ok (Units.formatUnits raw 6))
  /\ (forall raw e,
        eth_balanceOf steady_chain (trace celo_loaded) celo_usd "0xabc" = Ok raw ->
        eth_decimals steady_chain (trace celo_loaded ++ [BalanceOf celo_usd "0xabc"]) celo_usd
        = Err e ->
        fst (getTokenBalance steady_chain "celo" "USD" "0xabc" celo_loaded)
        = Ok (Units.formatUnits raw 18))
  /\ snd (getTokenBalance steady_chain "celo" "USD" "0xabc" celo_loaded)
     = with_calls [BalanceOf celo_usd "0xabc"; Decimals celo_usd] celo_loaded.
Proof.
  apply (getTokenBalance_only_balance_fails
           steady_chain celo_loaded "celo" "USD" "0xabc" celo_usd);
    reflexivity.
Defined.

Lemma count_calls_app (p : RpcCall -> bool) (l1 l2 : list RpcCall) :
  count_calls p (l1 ++ l2) = (count_calls p l1 + count_calls p l2)%nat.
Proof. unfold count_calls. now rewrite List.filter_app, length_app. Qed.

Lemma decimals_reads_no_submission (w : World) network tokenName c :
  count_calls is_submission (decimals_reads w network tokenName c) = 0%nat.
Proof.
  unfold decimals_reads.
  destruct (decimalsFromConfig (config (self w)) network tokenName) as [[d|raw]|];
    reflexivity.
Qed.

(** X12. The balance readers never change the instance (configuration,
    providers, bindings) and never submit a transaction:
    [getNativeBalance] issues at most one call, a balance read on the
    provider stored for the network, and surfaces its failure as it is;
    [getTokenBalance] issues no call, or the balance read alone when the
    ABI of the binding does not describe [decimals], or the two reads of
    one binding. *)
Theorem balance_readers_only_read
  (eth : Ethers) (w : World) (network tokenName addr : string) :
  (exists calls,
     snd (getNativeBalance eth network addr w) = with_calls calls w
     /\ (calls = []
         \/ exists p, providers (self w) !! network = Some p
                      /\ calls = [GetBalance p addr]
                      /\ forall e, eth_getBalance eth (trace w) p addr = Err e ->
                                   fst (getNativeBalance eth network addr w) = Err e))
  /\ (exists calls,
        snd (getTokenBalance eth network tokenName addr w) = with_calls calls w
        /\ (calls = []
            \/ exists c, binding (contracts (self w)) network tokenName = Some c
                         /\ has_function c "balanceOf" = true
                         /\ ((calls = [BalanceOf c addr]
                              /\ has_function c "decimals" = false
                              /\ fst (getTokenBalance eth network tokenName addr w)
                                 = Err (TypeError "decimals"))
                             \/ (calls = [BalanceOf c addr; Decimals c]
                                 /\ has_function c "decimals" = true))))
  /\ self (snd (getNativeBalance eth network addr w)) = self w
  /\ self (snd (getTokenBalance eth network tokenName addr w)) = self w
  /\ count_calls is_submission
       (trace (snd (getNativeBalance eth network addr w)))
     = count_calls is_submission (trace w)
  /\ count_calls is_submission
       (trace (snd (getTokenBalance eth network tokenName addr w)))
     = count_calls is_submission (trace w).
Proof.
  assert (H1 : exists calls,
             snd (getNativeBalance eth network addr w) = with_calls calls w
             /\ count_calls is_submission calls = 0%nat
             /\ (calls = []
                 \/ exists p, providers (self w) !! network = Some p
                              /\ calls = [GetBalance p addr]
                              /\ forall e, eth_getBalance eth (trace w) p addr = Err e ->
                                           fst (getNativeBalance eth network addr w) = Err e)).
  { rewrite getNativeBalance_cases.
    destruct (member (providers (self w)) network) as [p|b|] eqn:M.
    - eexists. split; [reflexivity|]. split; [reflexivity|]. right. exists p.
      split; [now apply member_own_inv|]. split; [reflexivity|].
      intros e ->. reflexivity.
    - exists []. split; [cbn; now rewrite with_calls_nil|]. split; [reflexivity|now left].
    - exists []. split; [cbn; now rewrite with_calls_nil|]. split; [reflexivity|now left]. }
  assert (H2 : exists calls,
        snd (getTokenBalance eth network tokenName addr w) = with_calls calls w
        /\ count_calls is_submission calls = 0%nat
        /\ (calls = []
            \/ exists c, binding (contracts (self w)) network tokenName = Some c
                         /\ has_function c "balanceOf" = true
                         /\ ((calls = [BalanceOf c addr]
                              /\ has_function c "decimals" = false
                              /\ fst (getTokenBalance eth network tokenName addr w)
                                 = Err (TypeError "decimals"))
                             \/ (calls = [BalanceOf c addr; Decimals c]
                                 /\ has_function c "decimals" = true)))).
  { rewrite getTokenBalance_cases.
    destruct (contractAt eth (contracts (self w)) network tokenName) as [c|b|] eqn:M.
    - apply contractAt_own_inv in M.
      destruct (has_function c "balanceOf") eqn:Hb.
      + destruct (has_function c "decimals") eqn:Hd.
        * eexists. split; [reflexivity|]. split; [reflexivity|]. right. exists c.
          split; [exact M|]. split; [exact Hb|]. right. now split.
        * eexists. split; [reflexivity|]. split; [reflexivity|]. right. exists c.
          split; [exact M|]. split; [exact Hb|]. left. now repeat split.
      + exists []. split; [cbn; now rewrite with_calls_nil|].
        split; [reflexivity | now left].
    - exists []. split; [cbn; now rewrite with_calls_nil|]. split; [reflexivity|now left].
    - exists []. split; [cbn; now rewrite with_calls_nil|]. split; [reflexivity|now left]. }
  destruct H1 as (c1 & E1 & N1 & H1), H2 as (c2 & E2 & N2 & H2).
  split; [exists c1; now split|]. split; [exists c2; now split|].
  rewrite E1, E2. cbn [with_calls self trace].
  rewrite !count_calls_app, N1, N2. repeat split; lia.
Qed.

Lemma connect_calls_no_submission (signer : Wallet) (c : Contract) :
  count_calls is_submission (connect_calls signer c) = 0%nat.
Proof. unfold connect_calls. now destruct (isHexString (target c)). Qed.

Lemma parseAmount_parseUnits (amount : string) (d : nat) (v : Z) :
  parseAmount amount d = Ok v -> Units.parseUnits amount d = Some v.
Proof.
  unfold parseAmount. destruct (80 <? d)%nat; [discriminate|].
  destruct (Units.parseUnits amount d) as [v0|]; [|discriminate].
  destruct (fits_fixed v0); [|discriminate]. now intros [= ->].
Qed.

(** X13. [transferNative] never changes the instance. It submits a
    transaction exactly when the lookup of the network answers
    something, the key is usable and the amount converts at 18 decimals,
    and then exactly once, also when the submission is rejected: there
    is no retry. The checks come in that order, and none of the three
    failures issues a call. The signer runs on what the lookup answered,
    which for an inherited name is not a provider. *)
Theorem transferNative_gated
  (eth : Ethers) (w : World) (network fromPrivateKey toAddress amount : string) :
  let out := transferNative eth network fromPrivateKey toAddress amount w in
  let found := member (providers (self w)) network in
  let ready :=
    present found
    && eth_validKey eth fromPrivateKey
    && match parseAmount amount 18 with Ok _ => true | Err _ => false end in
  (exists calls,
     snd out = with_calls calls w
     /\ count_calls is_submission calls = (if ready then 1 else 0)%nat
     /\ (ready = false -> calls = [])
     /\ (ready = true ->
         exists value rest,
           parseAmount amount 18 = Ok value
           /\ calls = SendTransaction {| signingKey := fromPrivateKey;
                                         wallet_provider := found |}
                                      toAddress value :: rest))
  /\ (found = Missing ->
      fst out = Err (ProviderNotInitialized network))
  /\ (present found = true ->
      eth_validKey eth fromPrivateKey = false ->
      fst out = Err InvalidPrivateKey)
  /\ (forall e,
        present found = true ->
        eth_validKey eth fromPrivateKey = true ->
        parseAmount amount 18 = Err e ->
        fst out = Err e).
Proof.
  intros out found ready. subst out ready.
  rewrite transferNative_cases. cbv zeta. fold found.
  destruct (present found) eqn:P.
  2:{ cbn [fst snd andb]. split; [|split; [reflexivity|split; discriminate]].
      exists []. rewrite with_calls_nil. repeat split; discriminate. }
  assert (Hfound : found <> Missing) by (intros E; rewrite E in P; discriminate).
  destruct (eth_validKey eth fromPrivateKey).
  2:{ cbn [fst snd andb]. split; [|split; [contradiction|]].
      - exists []. rewrite with_calls_nil. repeat split; discriminate.
      - split; [reflexivity | discriminate]. }
  cbn [andb].
  destruct (parseAmount amount 18) as [value|e0].
  2:{ cbn [fst snd]. split; [|split; [contradiction|]].
      - exists []. rewrite with_calls_nil. repeat split; discriminate.
      - split; [discriminate | now intros e _ _ [= <-]]. }
  split; [|split; [contradiction|split; discriminate]].
  destruct (eth_sendTransaction eth _ _ toAddress value) as [hash|e].
  - destruct (eth_wait eth _ hash); eexists; (split; [reflexivity|]);
      (split; [reflexivity|]); (split; [discriminate|]); intros _;
      eexists _, _; split; reflexivity.
  - eexists. split; [reflexivity|]. split; [reflexivity|].
    split; [discriminate|]. intros _. eexists _, _. split; reflexivity.
Qed.

(** X14. [transferToken] never changes the instance. It checks the
    connection before the binding, and neither failure issues a call.
    On a binding it then learns the decimals, which throws when the
    configuration gives no number and the ABI does not describe
    [decimals]; a decimals read may therefore already be issued when
    the key or the amount is refused. It submits a transfer exactly when
    connection, binding, decimals, key and amount are all in order and
    the ABI describes [transfer], and then exactly once: a rejected
    submission is not retried. What an inherited name finds in place of
    a binding passes the binding check and throws later, with no call
    issued. *)
Theorem transferToken_gated
  (eth : Ethers) (w : World)
  (network tokenName fromPrivateKey toAddress amount : string) :
  let out := transferToken eth network tokenName fromPrivateKey toAddress amount w in
  let found := member (providers (self w)) network in
  let contract := contractAt eth (contracts (self w)) network tokenName in
  let signer := {| signingKey := fromPrivateKey; wallet_provider := found |} in
  let ready :=
    present found
    && match contract with
       | Own c =>
           decimals_known w network tokenName c
           && eth_validKey eth fromPrivateKey
           && match parseAmount amount (decimals_used eth w network tokenName c) with
              | Ok _ => true
              | Err _ => false
              end
           && has_function c "transfer"
       | _ => false
       end in
  (exists calls,
     snd out = with_calls calls w
     /\ count_calls is_submission calls = (if ready then 1 else 0)%nat)
  /\ (found = Missing ->
      out = (Err (ProviderNotInitialized network), w))
  /\ (present found = true ->
      contract = Missing ->
      out = (Err (ContractNotFound tokenName network), w))
  /\ (forall b,
        present found = true ->
        contract = Inherited b ->
        out = (match decimalsFromConfig (config (self w)) network tokenName with
               | Some (DecimalsNumber _) =>
                   if eth_validKey eth fromPrivateKey
                   then Err (TypeError "connect")
                   else Err InvalidPrivateKey
               | _ => Err (TypeError "decimals")
               end, w))
  /\ (forall c,
        present found = true ->
        contract = Own c ->
        decimals_known w network tokenName c = false ->
        out = (Err (TypeError "decimals"), w))
  /\ (forall c,
        present found = true ->
        contract = Own c ->
        decimals_known w network tokenName c = true ->
        eth_validKey eth fromPrivateKey = false ->
        out = (Err InvalidPrivateKey,
               with_calls (decimals_reads w network tokenName c) w))
  /\ (forall c e,
        present found = true ->
        contract = Own c ->
        decimals_known w network tokenName c = true ->
        eth_validKey eth fromPrivateKey = true ->
        parseAmount amount (decimals_used eth w network tokenName c) = Err e ->
        out = (Err e,
               with_calls (decimals_reads w network tokenName c
                           ++ connect_calls signer c) w))
  /\ (forall c value,
        present found = true ->
        contract = Own c ->
        decimals_known w network tokenName c = true ->
        eth_validKey eth fromPrivateKey = true ->
        parseAmount amount (decimals_used eth w network tokenName c) = Ok value ->
        has_function c "transfer" = false ->
        out = (Err (TypeError "transfer"),
               with_calls (decimals_reads w network tokenName c
                           ++ connect_calls signer c) w)).
Proof.
  intros out found contract signer ready. subst out ready.
  rewrite transferToken_cases. cbv zeta. fold found contract signer.
  destruct (present found) eqn:P.
  2:{ cbn [andb fst snd]. split.
      - exists []. now rewrite with_calls_nil.
      - repeat split; intros; discriminate. }
  assert (Hfound : found <> Missing) by (intros E; rewrite E in P; discriminate).
  cbn [andb].
  destruct contract as [c|b|].
  3:{ split; [exists []; now rewrite with_calls_nil|].
      repeat split; intros; try contradiction; discriminate. }
  2:{ split.
      - exists []. rewrite with_calls_nil. split; [|reflexivity].
        destruct (decimalsFromConfig (config (self w)) network tokenName) as [[d|raw]|];
          try reflexivity.
        now destruct (eth_validKey eth fromPrivateKey).
      - repeat split; intros; try contradiction; try discriminate.
        match goal with H : Inherited _ = Inherited _ |- _ => inversion H; subst end.
        destruct (decimalsFromConfig (config (self w)) network tokenName) as [[d|raw]|];
          try reflexivity.
        now destruct (eth_validKey eth fromPrivateKey). }
  assert (Hown : forall c' : Contract, Own c = Own c' -> c' = c)
    by (intros c' H; now inversion H).
  destruct (decimals_known w network tokenName c) eqn:K.
  2:{ cbn [andb]. split; [exists []; now rewrite with_calls_nil|].
      repeat split; intros; try contradiction; try discriminate;
        match goal with H : Own c = Own ?c' |- _ => apply Hown in H; subst c' end;
        try reflexivity; congruence. }
  destruct (eth_validKey eth fromPrivateKey) eqn:V.
  2:{ cbn [andb snd]. split.
      - eexists. split; [reflexivity|]. apply decimals_reads_no_submission.
      - repeat split; intros; try contradiction; try discriminate;
          match goal with H : Own c = Own ?c' |- _ => apply Hown in H; subst c' end;
          try reflexivity; congruence. }
  cbn [andb].
  destruct (parseAmount amount (decimals_used eth w network tokenName c))
    as [value|e0] eqn:A.
  2:{ cbn [andb snd]. rewrite with_calls_app. split.
      - eexists. split; [reflexivity|].
        now rewrite count_calls_app, decimals_reads_no_submission,
          connect_calls_no_submission.
      - repeat split; intros; try contradiction; try discriminate;
          match goal with H : Own c = Own ?c' |- _ => apply Hown in H; subst c' end;
          try reflexivity; congruence. }
  cbn [andb].
  destruct (has_function c "transfer") eqn:T.
  2:{ cbn [snd]. rewrite with_calls_app. split.
      - eexists. split; [reflexivity|].
        now rewrite count_calls_app, decimals_reads_no_submission,
          connect_calls_no_submission.
      - repeat split; intros; try contradiction; try discriminate;
          match goal with H : Own c = Own ?c' |- _ => apply Hown in H; subst c' end;
          try reflexivity; congruence. }
  split.
  - destruct (eth_transfer eth _ _ c toAddress value) as [hash|e].
    + destruct (eth_wait eth _ hash); cbn [snd]; rewrite !with_calls_app;
        eexists; (split; [reflexivity|]);
        rewrite !count_calls_app, decimals_reads_no_submission,
          connect_calls_no_submission; reflexivity.
    + cbn [snd]. rewrite !with_calls_app. eexists. split; [reflexivity|].
      rewrite !count_calls_app, decimals_reads_no_submission,
        connect_calls_no_submission. reflexivity.
  - repeat split; intros; try contradiction; try discriminate;
      match goal with H : Own c = Own ?c' |- _ => apply Hown in H; subst c' end;
      congruence.
Qed.

(** X15. A transfer that returns a result has issued, last, the
    submission and then the wait for the hash it reports; the result
    names the network, carries the token name for a token transfer and
    none for a native one, and its status is the one the wait
    answered. Before the submission a token transfer has issued at most
    the decimals read and, for a binding given by name, the resolution
    of that name by the signer. *)
Theorem transfer_result_reports_submission
  (eth : Ethers) (w : World)
  (network tokenName fromPrivateKey toAddress amount : string) :
  (forall r,
     fst (transferNative eth network fromPrivateKey toAddress amount w) = Ok r ->
     tx_network r = network /\ tx_token r = None
     /\ exists signer value,
          snd (transferNative eth network fromPrivateKey toAddress amount w)
          = with_calls [SendTransaction signer toAddress value; Wait (tx_hash r)] w
          /\ Units.parseUnits amount 18 = Some value
          /\ eth_sendTransaction eth (trace w) signer toAddress value = Ok (tx_hash r)
          /\ eth_wait eth (trace w ++ [SendTransaction signer toAddress value]) (tx_hash r)
             = Ok (tx_status r))
  /\ (forall r,
        fst (transferToken eth network tokenName fromPrivateKey toAddress amount w) = Ok r ->
        tx_network r = network /\ tx_token r = Some tokenName
        /\ exists signer c value reads resolves,
             snd (transferToken eth network tokenName fromPrivateKey toAddress amount w)
             = with_calls (reads ++ resolves
                           ++ [Transfer signer c toAddress value; Wait (tx_hash r)]) w
             /\ binding (contracts (self w)) network tokenName = Some c
             /\ (reads = [] \/ reads = [Decimals c])
             /\ (resolves = [] /\ isHexString (target c) = true
                 \/ resolves = [ResolveName (wallet_provider signer) (target c)]
                    /\ isHexString (target c) = false)
             /\ eth_transfer eth (trace w ++ reads ++ resolves) signer c toAddress value
                = Ok (tx_hash r)
             /\ eth_wait eth (trace w ++ reads ++ resolves
                              ++ [Transfer signer c toAddress value])
                         (tx_hash r)
                = Ok (tx_status r)).
Proof.
  split.
  - rewrite transferNative_cases. cbv zeta.
    destruct (present (member (providers (self w)) network)); [|discriminate].
    destruct (eth_validKey eth fromPrivateKey); [|discriminate].
    destruct (parseAmount amount 18) as [value|] eqn:A; [|discriminate].
    apply parseAmount_parseUnits in A.
    destruct (eth_sendTransaction eth _ _ toAddress value) as [hash|e] eqn:S;
      [|discriminate].
    destruct (eth_wait eth _ hash) as [status|e] eqn:Wt; [|discriminate].
    intros r [= <-]. cbn. repeat split. eauto 10.
  - rewrite transferToken_cases. cbv zeta.
    destruct (present (member (providers (self w)) network)); [|discriminate].
    destruct (contractAt eth (contracts (self w)) network tokenName) as [c|b|] eqn:M.
    3:{ discriminate. }
    2:{ destruct (decimalsFromConfig (config (self w)) network tokenName) as [[d|raw]|];
          try discriminate.
        destruct (eth_validKey eth fromPrivateKey); discriminate. }
    apply contractAt_own_inv in M.
    destruct (decimals_known w network tokenName c); [|discriminate].
    destruct (eth_validKey eth fromPrivateKey); [|discriminate].
    destruct (parseAmount amount _) as [value|]; [|discriminate].
    destruct (has_function c "transfer"); [|discriminate].
    destruct (eth_transfer eth _ _ c toAddress value) as [hash|e] eqn:S;
      [|discriminate].
    destruct (eth_wait eth _ hash) as [status|e] eqn:Wt; [|discriminate].
    intros r [= <-]. cbn [fst snd tx_network tx_token tx_hash tx_status].
    repeat split.
    exists {| signingKey := fromPrivateKey;
              wallet_provider := member (providers (self w)) network |},
      c, value, (decimals_reads w network tokenName c),
      (connect_calls {| signingKey := fromPrivateKey;
                        wallet_provider := member (providers (self w)) network |} c).
    rewrite !with_calls_app. split; [reflexivity|].
    split; [exact M|]. split; [|split; [|split]].
    + unfold decimals_reads.
      destruct (decimalsFromConfig _ _ _) as [[d|raw]|]; auto.
    + unfold connect_calls. cbn [wallet_provider].
      destruct (isHexString (target c)); auto.
    + cbn [with_calls trace] in S. rewrite <- app_assoc in S. exact S.
    + cbn [with_calls trace] in Wt. rewrite <- !app_assoc in Wt. exact Wt.
Qed.

(** X16. Once [connectNetworks] has returned on a configuration with
    distinct network names, [getNativeBalance] on any configured network
    passes the connection check and issues exactly one balance read, on
    a provider built on the endpoint [resolveRpcUrl] selects for that
    network. *)
Theorem connect_then_getNativeBalance
  (eth : Ethers) (w : World) (m addr : string) (nc : NetworkConfig) :
  Forall resolves (networks (config (self w))) ->
  NoDup (List.map fst (networks (config (self w)))) ->
  In (m, nc) (networks (config (self w))) ->
  exists w' url,
    connectNetworks w = (Ok true, w')
    /\ resolveRpcUrl nc = Ok url
    /\ snd (getNativeBalance eth m addr w')
       = with_calls [GetBalance {| endpoint := url |} addr] w'
    /\ forall e, fst (getNativeBalance eth m addr w') = Err e ->
                 eth_getBalance eth (trace w) {| endpoint := url |} addr = Err e.
Proof.
  intros Hall Hnd Hin.
  destruct (connected_last_wins _ Hall (providers (self w)) m nc Hin)
    as (nc' & url & Hin' & Hr & Hl).
  rewrite <- (NoDup_fst_unique _ m nc nc' Hnd Hin Hin') in Hr.
  eexists _, url. split; [now apply connectNetworks_ok|]. split; [exact Hr|].
  rewrite getNativeBalance_cases.
  cbn [with_providers self providers trace]. rewrite (member_own _ _ _ Hl).
  cbn [fst snd].
  split; [reflexivity|].
  intros e. destruct (eth_getBalance eth (trace w) _ addr); congruence.
Qed.

Lemma connect_then_getNativeBalance_witness :
  exists w' url,
    connectNetworks (fresh celo_client) = (Ok true, w')
    /\ resolveRpcUrl celo_network = Ok url
    /\ snd (getNativeBalance steady_chain "celo" "0xabc" w')
       = with_calls [GetBalance {| endpoint := url |} "0xabc"] w'
    /\ forall e, fst (getNativeBalance steady_chain "celo" "0xabc" w') = Err e ->
                 eth_getBalance steady_chain (trace (fresh celo_client))
                                {| endpoint := url |} "0xabc" = Err e.
Proof.
  apply (connect_then_getNativeBalance
           steady_chain (fresh celo_client) "celo" "0xabc" celo_network).
  - repeat constructor.
  - apply NoDup_singleton.
  - now left.
Defined.

(** X17. On a newly constructed instance nothing is connected or loaded:
    for a network name that no plain object inherits, every balance read
    and every transfer throws without issuing a call and without
    changing the instance; a token read does not load the contracts by
    itself, and a token transfer reports the missing connection, not the
    missing binding. *)
Theorem new_instance_refuses
  (eth : Ethers) (c : option RawConfig) (client : OathstoneClient)
  (network tokenName key to amount addr : string) :
  constructor c = Ok client ->
  inherited network = false ->
  getNativeBalance eth network addr (fresh client)
  = (Err (ProviderNotInitialized network), fresh client)
  /\ getTokenBalance eth network tokenName addr (fresh client)
     = (Err (ContractNotFound tokenName network), fresh client)
  /\ transferNative eth network key to amount (fresh client)
     = (Err (ProviderNotInitialized network), fresh client)
  /\ transferToken eth network tokenName key to amount (fresh client)
     = (Err (ProviderNotInitialized network), fresh client).
Proof.
  unfold constructor. destruct (normalize c) as [cfg|]; [|discriminate].
  intros [= <-] Hplain.
  set (w := fresh {| config := cfg; providers := ∅; contracts := ∅ |}).
  assert (Hp : member (providers (self w)) network = Missing)
    by (apply member_plain; [apply lookup_empty | exact Hplain]).
  assert (Hc : contractAt eth (contracts (self w)) network tokenName = Missing)
    by (apply contractAt_plain; [apply lookup_empty | exact Hplain]).
  split; [|split; [|split]].
  - now rewrite getNativeBalance_cases, Hp.
  - now rewrite getTokenBalance_cases, Hc.
  - rewrite transferNative_cases. cbv zeta. now rewrite Hp.
  - rewrite transferToken_cases. cbv zeta. now rewrite Hp.
Qed.

Lemma new_instance_refuses_witness :
  getNativeBalance steady_chain "celo" "0xabc" (fresh celo_client)
  = (Err (ProviderNotInitialized "celo"), fresh celo_client)
  /\ getTokenBalance steady_chain "celo" "USD" "0xabc" (fresh celo_client)
     = (Err (ContractNotFound "USD" "celo"), fresh celo_client)
  /\ transferNative steady_chain "celo" "0xkey" "0xto" "1" (fresh celo_client)
     = (Err (ProviderNotInitialized "celo"), fresh celo_client)
  /\ transferToken steady_chain "celo" "USD" "0xkey" "0xto" "1" (fresh celo_client)
     = (Err (ProviderNotInitialized "celo"), fresh celo_client).
Proof.
  apply (new_instance_refuses steady_chain (Some celo_config) celo_client
           "celo" "USD" "0xkey" "0xto" "1" "0xabc"); reflexivity.
Defined.
